(** * Beacon / GeoData / get_coords.py

    A shallow embedding of the landmark geocoding script: the line
    extractor (a backtracking match of the script's regular expression),
    the resolver with its fallback query and retry loop, and the reporter
    that writes the CSV file.

    Text is a list of Unicode code points, floats are binary64 values
    (PrimFloat), the file system is a finite map from file names to text,
    and the script's effects (requests, sleeps, file writes, exceptions)
    live in a small state-and-exception monad.  The builtin [float], the
    text of a float, [urllib.parse.quote], the Unicode digit table and the
    answers of the network are parameters.  Console output is left out, and
    opening and writing the CSV file is taken to succeed. *)

From Stdlib Require Import NArith ZArith QArith PrimFloat Uint63 Ascii List Lia.
From stdpp Require Import base list gmap strings.

Local Open Scope N_scope.

(** ** Text *)

(** A Python [str]: a sequence of code points. *)
Abbreviation str := (list N).

(** The code points of an ASCII literal. *)
Fixpoint lit (s : string) : str :=
  match s with
  | EmptyString => []
  | String a s' => Ascii.N_of_ascii a :: lit s'
  end.

(** [str.isspace] on one code point, also the class [\s] of [re] on text
    patterns (CPython's [_PyUnicode_IsWhitespace]). *)
Definition isspace (c : N) : bool :=
  ((0x09 <=? c) && (c <=? 0x0D)) || ((0x1C <=? c) && (c <=? 0x20))
  || (c =? 0x85) || (c =? 0xA0) || (c =? 0x1680)
  || ((0x2000 <=? c) && (c <=? 0x200A))
  || (c =? 0x2028) || (c =? 0x2029) || (c =? 0x202F) || (c =? 0x205F)
  || (c =? 0x3000).

Fixpoint lstrip (s : str) : str :=
  match s with
  | c :: s' => if isspace c then lstrip s' else s
  | [] => []
  end.

Definition rstrip (s : str) : str := rev (lstrip (rev s)).

(** [s.strip()] *)
Definition strip (s : str) : str := rstrip (lstrip s).

(** [s.split('\n')] *)
Fixpoint split_nl (s : str) : list str :=
  match s with
  | [] => [[]]
  | c :: s' =>
      if c =? 0x0A then [] :: split_nl s'
      else match split_nl s' with
           | l :: ls => (c :: l) :: ls
           | [] => [[c]]
           end
  end.

(** [s.replace(',', ';')] *)
Definition replace_comma (s : str) : str :=
  map (fun c => if c =? 0x2C then 0x3B else c) s.

(** [s[i:j]] for [0 <= i <= j] *)
Definition slice (s : str) (i j : nat) : str := take (j - i) (drop i s).

(** ** Values, exceptions, events *)

(** What [json.loads] returns. *)
#[warnings="-register-all"]
Inductive pyval :=
| PNone
| PBool (b : bool)
| PInt (z : Z)
| PFloat (f : float)
| PStr (s : str)
| PList (l : list pyval)
| PDict (d : list (str * pyval)).

(** The exception classes the script can meet (all below [Exception]). *)
Inductive exn :=
| URLError | HTTPError | TimeoutError
| FileError
| JSONDecodeError | UnicodeDecodeError
| KeyError | IndexError | TypeError | ValueError | OverflowError
| AttributeError
| OtherException.

Inductive res (A : Type) :=
| Ok (a : A)
| Raise (e : exn).
Arguments Ok {A} a.
Arguments Raise {A} e.

(** What the outside world sees of a run, in order. *)
Inductive event :=
| Request (url : str)
| Sleep (secs : Q).

(** The library functions and the network the script relies on.
    [nd_table] is the Unicode category Nd above ASCII; [float_of_str] and
    [float_of_int] are the builtin [float] ([None]: it raises);
    [float_repr] is the text an f-string gives a float; [quote] is
    [urllib.parse.quote]; [fetch_json] is the outcome of
    [json.loads(urlopen(Request(url, headers), timeout=10).read().decode('utf-8'))]
    given everything that happened before. *)
Class Runtime := {
  nd_table : N -> bool;
  float_of_str : str -> option float;
  float_of_int : Z -> option float;
  float_repr : float -> str;
  quote : str -> str;
  fetch_json : list event -> str -> res pyval
}.

(** ** The regular expression engine

    Patterns are flat: a sequence of character classes, each with a
    quantifier, and group marks.  The matcher backtracks the way [re]
    does: greedy quantifiers try the longest run first, the lazy one the
    shortest. *)

Inductive quant := One | Opt | Star | Plus | PlusLazy.

Inductive item :=
| Cls (c : N -> bool) (q : quant)
| Open (g : nat)
| Close (g : nat).

Section Repeat.
Context {R : Type} (c : N -> bool) (k : nat -> str -> option R).

Definition rep_one (pos : nat) (s : str) : option R :=
  match s with
  | x :: s' => if c x then k (S pos) s' else None
  | [] => None
  end.

Definition rep_opt (pos : nat) (s : str) : option R :=
  match s with
  | x :: s' =>
      if c x then
        match k (S pos) s' with Some r => Some r | None => k pos s end
      else k pos s
  | [] => k pos s
  end.

Fixpoint rep_star (pos : nat) (s : str) : option R :=
  match s with
  | x :: s' =>
      if c x then
        match rep_star (S pos) s' with Some r => Some r | None => k pos s end
      else k pos s
  | [] => k pos s
  end.

Definition rep_plus (pos : nat) (s : str) : option R :=
  match s with
  | x :: s' => if c x then rep_star (S pos) s' else None
  | [] => None
  end.

Fixpoint rep_plus_lazy (pos : nat) (s : str) : option R :=
  match s with
  | x :: s' =>
      if c x then
        match k (S pos) s' with
        | Some r => Some r
        | None => rep_plus_lazy (S pos) s'
        end
      else None
  | [] => None
  end.
End Repeat.

(** Group [g] spans from mark [2g] to mark [2g+1]. *)
Fixpoint exec (p : list item) (pos : nat) (s : str) (m : gmap nat nat)
  : option (gmap nat nat) :=
  match p with
  | [] => Some m
  | Open g :: p' => exec p' pos s (<[(2 * g)%nat := pos]> m)
  | Close g :: p' => exec p' pos s (<[(2 * g + 1)%nat := pos]> m)
  | Cls c q :: p' =>
      let k := fun pos' s' => exec p' pos' s' m in
      match q with
      | One => rep_one c k pos s
      | Opt => rep_opt c k pos s
      | Star => rep_star c k pos s
      | Plus => rep_plus c k pos s
      | PlusLazy => rep_plus_lazy c k pos s
      end
  end.

(** [re.match(p, line)]: the marks of the first match found, if any. *)
Definition re_match (p : list item) (line : str) : option (gmap nat nat) :=
  exec p 0 line ∅.

(** [match.group(g)] *)
Definition group (line : str) (m : gmap nat nat) (g : nat) : str :=
  slice line (default 0%nat (m !! (2 * g)%nat))
             (default 0%nat (m !! (2 * g + 1)%nat)).

(** ** The extractor *)

Definition chr (a : N) (c : N) : bool := c =? a.
Definition any_but_nl (c : N) : bool := negb (c =? 0x0A).
Definition dash (c : N) : bool := (c =? 0x2013) || (c =? 0x2D).
Definition sign (c : N) : bool := (c =? 0x2B) || (c =? 0x2D).

(** [\d] on text patterns: the decimal digits of Unicode. *)
Definition is_decimal `{Runtime} (c : N) : bool :=
  if c <? 128 then (0x30 <=? c) && (c <=? 0x39) else nd_table c.

(** NUM, the inside of a number group: [[+-]?\d+\.?\d*] *)
Definition number_items `{Runtime} : list item :=
  [Cls sign Opt; Cls is_decimal Plus; Cls (chr 0x2E) Opt; Cls is_decimal Star].

(** The script's pattern, with NUM for each of the two number groups:
    [^(.+?)\s+\((.+?)\)\s+[–-]\s+\((NUM),\s*(NUM)\)] *)
Definition pattern `{Runtime} : list item :=
  [Open 1; Cls any_but_nl PlusLazy; Close 1;
   Cls isspace Plus; Cls (chr 0x28) One;
   Open 2; Cls any_but_nl PlusLazy; Close 2;
   Cls (chr 0x29) One; Cls isspace Plus; Cls dash One; Cls isspace Plus;
   Cls (chr 0x28) One; Open 3] ++ number_items ++
  [Close 3; Cls (chr 0x2C) One; Cls isspace Star; Open 4] ++ number_items ++
  [Close 4; Cls (chr 0x29) One].

(** A landmark tuple [(name, location, existing_lat, existing_lon)]. *)
Record landmark := Landmark {
  lm_name : str;
  lm_location : str;
  lm_lat : float;
  lm_lon : float
}.

(** The body of the [for line in ...] loop: the tuples it appends, or the
    [ValueError] of [float]. *)
Definition extract_line `{Runtime} (line0 : str) : res (list landmark) :=
  let line := strip line0 in
  match re_match pattern line with
  | Some m =>
      let name := strip (group line m 1) in
      let location := strip (group line m 2) in
      match float_of_str (group line m 3) with
      | None => Raise ValueError
      | Some existing_lat =>
          match float_of_str (group line m 4) with
          | None => Raise ValueError
          | Some existing_lon =>
              Ok [Landmark name location existing_lat existing_lon]
          end
      end
  | None => Ok []
  end.

Fixpoint extract_lines `{Runtime} (landmarks : list landmark) (lines : list str)
  : res (list landmark) :=
  match lines with
  | [] => Ok landmarks
  | line :: rest =>
      match extract_line line with
      | Ok new => extract_lines (landmarks ++ new) rest
      | Raise e => Raise e
      end
  end.

(** [extract_landmarks_from_file], from the text [f.read()] returned. *)
Definition extract_landmarks `{Runtime} (content : str) : res (list landmark) :=
  extract_lines [] (split_nl content).

(** ** Effects

    A run threads the world: the events so far and the files.  A
    computation ends with a value or with a raised exception. *)

Record world := World {
  events : list event;
  files : gmap string str
}.

Definition M (A : Type) : Type := world -> res A * world.

Definition ret {A} (a : A) : M A := fun w => (Ok a, w).

Definition bind {A B} (m : M A) (f : A -> M B) : M B :=
  fun w =>
    match m w with
    | (Ok a, w') => f a w'
    | (Raise e, w') => (Raise e, w')
    end.

Notation "x <- m ;; k" := (bind m (fun x => k))
  (at level 62, m at next level, right associativity).
Notation "m ;;; k" := (bind m (fun _ => k))
  (at level 62, right associativity).

(** A pure step that may raise. *)
Definition lift {A} (r : res A) : M A := fun w => (r, w).

(** [try: m  except Exception as e: h e] *)
Definition try_except {A} (m : M A) (h : exn -> M A) : M A :=
  fun w =>
    match m w with
    | (Ok a, w') => (Ok a, w')
    | (Raise e, w') => h e w'
    end.

Definition emit (ev : event) : M unit :=
  fun w => (Ok tt, World (events w ++ [ev]) (files w)).

(** [time.sleep(secs)] *)
Definition sleep (secs : Q) : M unit := emit (Sleep secs).

(** One request and the decoding of its answer. *)
Definition fetch `{Runtime} (url : str) : M pyval :=
  fun w => (fetch_json (events w) url, World (events w ++ [Request url]) (files w)).

(** [f.read()] of [open(filename, 'r', encoding='utf-8')]; a missing or
    unreadable file raises. *)
Definition read_file (filename : string) : M str :=
  fun w =>
    match files w !! filename with
    | Some content => (Ok content, w)
    | None => (Raise FileError, w)
    end.

(** [open(filename, 'w', encoding='utf-8')]: the file is created or emptied. *)
Definition open_write (filename : string) : M unit :=
  fun w => (Ok tt, World (events w) (<[filename := []]> (files w))).

(** [f.write(text)] *)
Definition write (filename : string) (text : str) : M unit :=
  fun w =>
    (Ok tt, World (events w)
              (<[filename := default [] (files w !! filename) ++ text]> (files w))).

(** ** Python's dynamic operations on decoded JSON *)

Fixpoint str_eqb (a b : str) : bool :=
  match a, b with
  | [], [] => true
  | x :: a', y :: b' => (x =? y) && str_eqb a' b'
  | _, _ => false
  end.

(** Lookup in a dict (its keys are distinct). *)
Fixpoint dict_get (d : list (str * pyval)) (key : str) : option pyval :=
  match d with
  | [] => None
  | (k, v) :: d' => if str_eqb k key then Some v else dict_get d' key
  end.

(** Truth value, as [if data] tests it. *)
Definition truthy (v : pyval) : bool :=
  match v with
  | PNone => false
  | PBool b => b
  | PInt z => negb (z =? 0)%Z
  | PFloat f => negb (PrimFloat.eqb f 0%float)
  | PStr s => match s with [] => false | _ => true end
  | PList l => match l with [] => false | _ => true end
  | PDict d => match d with [] => false | _ => true end
  end.

(** [len(v)] *)
Definition py_len (v : pyval) : res nat :=
  match v with
  | PStr s => Ok (length s)
  | PList l => Ok (length l)
  | PDict d => Ok (length d)
  | _ => Raise TypeError
  end.

(** [v[0]] *)
Definition py_first (v : pyval) : res pyval :=
  match v with
  | PList (x :: _) => Ok x
  | PList [] => Raise IndexError
  | PStr (c :: _) => Ok (PStr [c])
  | PStr [] => Raise IndexError
  | PDict _ => Raise KeyError
  | _ => Raise TypeError
  end.

(** [v[key]] for a text key *)
Definition py_getitem (v : pyval) (key : str) : res pyval :=
  match v with
  | PDict d =>
      match dict_get d key with
      | Some x => Ok x
      | None => Raise KeyError
      end
  | _ => Raise TypeError
  end.

(** [v.get(key, dflt)] *)
Definition py_get (v : pyval) (key : str) (dflt : pyval) : res pyval :=
  match v with
  | PDict d => Ok (default dflt (dict_get d key))
  | _ => Raise AttributeError
  end.

(** [float(v)] *)
Definition py_float `{Runtime} (v : pyval) : res float :=
  match v with
  | PStr s =>
      match float_of_str s with
      | Some f => Ok f
      | None => Raise ValueError
      end
  | PInt z =>
      match float_of_int z with
      | Some f => Ok f
      | None => Raise OverflowError
      end
  | PFloat f => Ok f
  | PBool b => Ok (if b then 1%float else 0%float)
  | _ => Raise TypeError
  end.

Definition res_bind {A B} (r : res A) (f : A -> res B) : res B :=
  match r with
  | Ok a => f a
  | Raise e => Raise e
  end.

(** ** The resolver *)

(** [(lat, lon, display_name)] *)
Definition geocode_result : Type := float * float * pyval.

(** The test [data and len(data) > 0]. *)
Definition has_candidates (data : pyval) : res bool :=
  if truthy data then res_bind (py_len data) (fun n => Ok (0 <? n)%nat)
  else Ok false.

(** [result = data[0]] up to the [return (lat, lon, display_name)]. *)
Definition first_candidate `{Runtime} (data : pyval) : res geocode_result :=
  res_bind (py_first data) (fun result =>
  res_bind (res_bind (py_getitem result (lit "lat")) py_float) (fun lat =>
  res_bind (res_bind (py_getitem result (lit "lon")) py_float) (fun lon =>
  res_bind (py_get result (lit "display_name") (PStr [])) (fun display_name =>
  Ok (lat, lon, display_name))))).

(** What [return (lat, lon, display_name)] hands to the caller. *)
Definition finish (r : res geocode_result) : res (option geocode_result) :=
  res_bind r (fun g => Ok (Some g)).

Definition search_url `{Runtime} (query : str) : str :=
  lit "https://nominatim.openstreetmap.org/search?q=" ++ quote query
  ++ lit "&format=json&limit=1".

Definition primary_query (name location : str) : str :=
  name ++ lit ", " ++ location ++ lit ", California, USA".

Definition simple_query (name : str) : str :=
  name ++ lit ", California, USA".

(** The body of the [try]: it always ends in a [return] or raises. *)
Definition attempt_body `{Runtime} (name location : str)
  : M (option geocode_result) :=
  data <- fetch (search_url (primary_query name location)) ;;
  found <- lift (has_candidates data) ;;
  if found then
    r <- lift (first_candidate data) ;;
    ret (Some r)
  else
    simple_data <- fetch (search_url (simple_query name)) ;;
    simple_found <- lift (has_candidates simple_data) ;;
    if simple_found then
      r <- lift (first_candidate simple_data) ;;
      ret (Some r)
    else ret None.

(** The first [except] clause: [(URLError, HTTPError, TimeoutError)]. *)
Definition network_error (e : exn) : bool :=
  match e with
  | URLError | HTTPError | TimeoutError => true
  | _ => false
  end.

(** [for attempt in range(retries)], over the attempts still to make. *)
Fixpoint retry_loop {A} (body : M (option A)) (retries : nat)
  (attempts : list nat) : M (option A) :=
  match attempts with
  | [] => ret None
  | attempt :: rest =>
      try_except body (fun e =>
        if network_error e then
          if (attempt <? retries - 1)%nat then
            sleep 2 ;;; retry_loop body retries rest
          else ret None
        else ret None)
  end.

Definition geocode_landmark `{Runtime} (name location : str) (retries : nat)
  : M (option geocode_result) :=
  retry_loop (attempt_body name location) retries (seq 0 retries).

(** The default of the [retries] parameter. *)
Definition default_retries : nat := 3.

(** ** The main loop and the reporter *)

Definition input_file : string := "in.txt".
Definition output_file : string := "landmarks_with_coords.json".
Definition csv_file : string := "landmarks_coords.csv".

Record coords := Coords { lat : float; lon : float }.

(** The dict built for each landmark; [None] in [o_new_coords] is Python's
    [None], and an absent key is [None] in the last two fields. *)
Record outcome := Outcome {
  o_name : str;
  o_location : str;
  o_existing_coords : coords;
  o_new_coords : option coords;
  o_display_name : pyval;
  o_coord_difference : option (float * float);
  o_error : option str
}.

Definition make_result (lm : landmark) (g : option geocode_result) : outcome :=
  match g with
  | Some (new_lat, new_lon, display_name) =>
      let lat_diff := PrimFloat.abs (PrimFloat.sub new_lat (lm_lat lm)) in
      let lon_diff := PrimFloat.abs (PrimFloat.sub new_lon (lm_lon lm)) in
      Outcome (lm_name lm) (lm_location lm)
        (Coords (lm_lat lm) (lm_lon lm))
        (Some (Coords new_lat new_lon))
        display_name
        (Some (lat_diff, lon_diff))
        None
  | None =>
      Outcome (lm_name lm) (lm_location lm)
        (Coords (lm_lat lm) (lm_lon lm))
        None
        PNone
        None
        (Some (lit "Geocoding failed"))
  end.

(** The [for idx, (name, ...) in enumerate(landmarks, 1)] loop, with the
    results accumulated so far. *)
Fixpoint main_loop `{Runtime} (landmarks : list landmark) (results : list outcome)
  : M (list outcome) :=
  match landmarks with
  | [] => ret results
  | lm :: rest =>
      g <- geocode_landmark (lm_name lm) (lm_location lm) default_retries ;;
      let result := make_result lm g in
      sleep (11 # 10) ;;;
      main_loop rest (results ++ [result])
  end.

(** One line of the CSV file. *)
Definition csv_row `{Runtime} (r : outcome) : str :=
  let name := replace_comma (o_name r) in
  let c := match o_new_coords r with
           | Some new => new
           | None => o_existing_coords r
           end in
  name ++ lit "," ++ float_repr (lat c) ++ lit "," ++ float_repr (lon c)
  ++ [0x0A].

Definition csv_header : str := lit "name,lat,lon" ++ [0x0A].

Fixpoint write_rows `{Runtime} (results : list outcome) : M unit :=
  match results with
  | [] => ret tt
  | r :: rest => write csv_file (csv_row r) ;;; write_rows rest
  end.

Definition extract_landmarks_from_file `{Runtime} (filename : string)
  : M (list landmark) :=
  content <- read_file filename ;;
  lift (extract_landmarks content).

Definition main `{Runtime} : M unit :=
  landmarks <- extract_landmarks_from_file input_file ;;
  results <- main_loop landmarks [] ;;
  open_write csv_file ;;;
  write csv_file csv_header ;;;
  write_rows results.

(** ** The shape of a landmark line, as the specification words it

    [<name> (<location>) <dash> (<lat>, <lon>)]: free text without line
    breaks for the name and the location, runs of white space between the
    parts, an en-dash or a hyphen, and two signed decimal numbers. *)

Definition all (c : N -> bool) (t : str) : Prop := forallb c t = true.

(** A signed decimal number with an optional fractional part. *)
Definition numeral `{Runtime} (t : str) : Prop :=
  ∃ sg ds dt fs : str,
    t = sg ++ ds ++ dt ++ fs
    ∧ (length sg ≤ 1)%nat ∧ all sign sg
    ∧ (1 ≤ length ds)%nat ∧ all is_decimal ds
    ∧ (length dt ≤ 1)%nat ∧ all (chr 0x2E) dt
    ∧ all is_decimal fs.

Definition shape `{Runtime} (line name location lat lon : str) : Prop :=
  ∃ (ws1 ws2 : str) (d : N) (ws3 ws4 rest : str),
    line = name ++ ws1 ++ lit "(" ++ location ++ lit ")" ++ ws2 ++ [d] ++ ws3
           ++ lit "(" ++ lat ++ lit "," ++ ws4 ++ lon ++ lit ")" ++ rest
    ∧ (1 ≤ length name)%nat ∧ all any_but_nl name
    ∧ (1 ≤ length ws1)%nat ∧ all isspace ws1
    ∧ (1 ≤ length location)%nat ∧ all any_but_nl location
    ∧ (1 ≤ length ws2)%nat ∧ all isspace ws2
    ∧ dash d = true
    ∧ (1 ≤ length ws3)%nat ∧ all isspace ws3
    ∧ numeral lat
    ∧ all isspace ws4
    ∧ numeral lon.

Definition has_shape `{Runtime} (line : str) : Prop :=
  ∃ name location lat lon, shape line name location lat lon.

(** The builtin [float] accepts every text of the number groups. *)
Definition float_accepts_numerals `{Runtime} : Prop :=
  ∀ t, numeral t → is_Some (float_of_str t).

(** How many characters a quantifier lets its class take. *)
Definition count_ok (q : quant) (n : nat) : Prop :=
  match q with
  | One => n = 1%nat
  | Opt => (n ≤ 1)%nat
  | Star => True
  | Plus | PlusLazy => (1 ≤ n)%nat
  end.

(** [derives p pos s m m']: some way of matching [p] against a prefix of
    [s], starting at position [pos] with marks [m], ends with marks [m']. *)
Fixpoint derives (p : list item) (pos : nat) (s : str) (m m' : gmap nat nat)
  : Prop :=
  match p with
  | [] => m' = m
  | Open g :: p' => derives p' pos s (<[(2 * g)%nat := pos]> m) m'
  | Close g :: p' => derives p' pos s (<[(2 * g + 1)%nat := pos]> m) m'
  | Cls c q :: p' =>
      ∃ t s' : str,
        s = t ++ s' ∧ count_ok q (length t) ∧ all c t
        ∧ derives p' (pos + length t)%nat s' m m'
  end.

(** Which of two run lengths a quantifier tries first. *)
Definition tried_before (q : quant) (n' n : nat) : Prop :=
  match q with
  | One => False
  | PlusLazy => (n' < n)%nat
  | Opt | Star | Plus => (n < n')%nat
  end.

(** [first_match p pos s m m']: the way of matching [p] that backtracking
    finds first: no alternative tried earlier can be completed. *)
Fixpoint first_match (p : list item) (pos : nat) (s : str) (m m' : gmap nat nat)
  : Prop :=
  match p with
  | [] => m' = m
  | Open g :: p' => first_match p' pos s (<[(2 * g)%nat := pos]> m) m'
  | Close g :: p' => first_match p' pos s (<[(2 * g + 1)%nat := pos]> m) m'
  | Cls c q :: p' =>
      ∃ t s' : str,
        s = t ++ s' ∧ count_ok q (length t) ∧ all c t
        ∧ first_match p' (pos + length t)%nat s' m m'
        ∧ ∀ (t' s'' : str) m'',
            s = t' ++ s'' → count_ok q (length t') → all c t' →
            tried_before q (length t') (length t) →
            ¬ derives p' (pos + length t')%nat s'' m m''
  end.

(** ** Reading the runs of the resolver and of the main loop *)

(** The landmark an outcome record was built for. *)
Definition landmark_of (r : outcome) : landmark :=
  Landmark (o_name r) (o_location r)
    (lat (o_existing_coords r)) (lon (o_existing_coords r)).

(** The world after [time.sleep(2)]. *)
Definition slept (w : world) : world :=
  World (events w ++ [Sleep 2]) (files w).

(** The world after the requests [urls]. *)
Definition requested (w : world) (urls : list str) : world :=
  World (events w ++ map Request urls) (files w).

(** In the attempt started in [w], the query whose answer decides the
    attempt returns [data], and [w'] is the world once it has: either the
    primary query does, or the primary query returns no candidate and the
    fallback query does. *)
Definition attempt_gets `{Runtime} (name location : str) (w : world)
  (data : pyval) (w' : world) : Prop :=
  let url := search_url (name ++ lit ", " ++ location ++ lit ", California, USA") in
  let simple_url := search_url (name ++ lit ", California, USA") in
  (fetch_json (events w) url = Ok data
   ∧ w' = requested w [url])
  ∨ (fetch_json (events w) url = Ok (PList [])
     ∧ fetch_json (events w ++ [Request url]) simple_url = Ok data
     ∧ w' = requested w [url; simple_url]).

(** The CSV line of a landmark as the specification words it: the new
    coordinates when the resolver gave a result, the existing ones
    otherwise, and the name with its commas replaced. *)
Definition spec_csv_row `{Runtime} (lm : landmark) (g : option geocode_result)
  : str :=
  let c := match g with
           | Some (new_lat, new_lon, _) => (new_lat, new_lon)
           | None => (lm_lat lm, lm_lon lm)
           end in
  replace_comma (lm_name lm) ++ lit "," ++ float_repr c.1 ++ lit ","
  ++ float_repr c.2 ++ [0x0A].

(** A computation that leaves the files alone. *)
Definition keeps_files {A} (m : M A) : Prop := ∀ w, files (m w).2 = files w.

(** ** A small runtime to run the model on

    ASCII digits only, numbers read as a quotient of two machine integers,
    and a network given as a function. *)

Fixpoint mantissa (t : str) (acc : Z) : Z :=
  match t with
  | [] => acc
  | c :: t' =>
      if (0x30 <=? c) && (c <=? 0x39)
      then mantissa t' (10 * acc + (Z.of_N c - 48))%Z
      else mantissa t' acc
  end.

Fixpoint frac_digits (t : str) : nat :=
  match t with
  | [] => 0%nat
  | c :: t' => if c =? 0x2E then length t' else frac_digits t'
  end.

Definition numeral_char (c : N) : bool :=
  sign c || chr 0x2E c || ((0x30 <=? c) && (c <=? 0x39)).

Definition float_of_Z (z : Z) : float :=
  let f := PrimFloat.of_uint63 (Uint63.of_Z (Z.abs z)) in
  if (z <? 0)%Z then PrimFloat.opp f else f.

Definition small_float_of_str (t : str) : option float :=
  match t with
  | [] => None
  | c :: _ =>
      if forallb numeral_char t then
        let v := PrimFloat.div (float_of_Z (mantissa t 0))
                   (float_of_Z (10 ^ Z.of_nat (frac_digits t))) in
        Some (if c =? 0x2D then PrimFloat.opp v else v)
      else None
  end.

Definition small_runtime (net : list event -> str -> res pyval) : Runtime :=
  {| nd_table := fun _ => false;
     float_of_str := small_float_of_str;
     float_of_int := fun z => Some (float_of_Z z);
     float_repr := fun _ => lit "0.0";
     quote := fun q => q;
     fetch_json := net |}.

(** The line of the script's own comment; U+2013 is the en-dash. *)
Definition lost_coast_line : str :=
  lit "Lost Coast Trail (King Range, Humboldt/Mendocino) " ++ [0x2013]
  ++ lit " (40.28918, -124.35588)".

(** ** Runs to try the model on *)

Definition demo_name : str := lit "Lost Coast Trail".
Definition demo_location : str := lit "King Range, Humboldt/Mendocino".

Definition demo_candidates : pyval :=
  PList [PDict [(lit "lat", PStr (lit "40.0182"));
                (lit "lon", PStr (lit "-124.0690"));
                (lit "display_name",
                 PStr (lit "Lost Coast Trail, Humboldt County"))]].

(** A candidate without its [lat] key. *)
Definition demo_broken_candidates : pyval :=
  PList [PDict [(lit "lon", PStr (lit "-124.0690"))]].

(** The network is down. *)
Definition offline : Runtime := small_runtime (fun _ _ => Raise URLError).

(** The provider answers with something that is not JSON. *)
Definition garbled : Runtime := small_runtime (fun _ _ => Raise JSONDecodeError).

(** The provider knows no place. *)
Definition no_results : Runtime := small_runtime (fun _ _ => Ok (PList [])).

(** The provider always has one candidate. *)
Definition one_result : Runtime :=
  small_runtime (fun _ _ => Ok demo_candidates).

Definition no_latitude : Runtime :=
  small_runtime (fun _ _ => Ok demo_broken_candidates).

Definition empty_world : world := World [] ∅.

(** [in.txt] holds the one line, and nothing else is there. *)
Definition demo_world : world := World [] {[ input_file := lost_coast_line ]}.

(** ** Counting what a run does *)

Definition is_request (ev : event) : bool :=
  match ev with Request _ => true | Sleep _ => false end.

Definition is_sleep (ev : event) : bool :=
  match ev with Sleep _ => true | Request _ => false end.

(** How many events of a trace satisfy [p]. *)
Definition count_events (p : event -> bool) (tr : list event) : nat :=
  length (List.filter p tr).

(** How many times the code point [c] occurs in a text. *)
Definition occurrences (c : N) (t : str) : nat :=
  length (List.filter (N.eqb c) t).

(** The trace of [n] attempts that each fail on their first request: the
    requests, with a sleep of 2 between them. *)
Fixpoint down_trace (n : nat) (url : str) : list event :=
  match n with
  | O => []
  | S n' =>
      Request url ::
      match n' with
      | O => []
      | S _ => Sleep 2 :: down_trace n' url
      end
  end.

(** ** The summary of [main]

    [successful = sum(1 for r in results if r.get('new_coords'))] and
    [failed = len(results) - successful]. *)
Definition successful (results : list outcome) : Z :=
  Z.of_nat (length (List.filter
                      (fun r => match o_new_coords r with
                                | Some _ => true
                                | None => false
                                end) results)).

Definition failed (results : list outcome) : Z :=
  (Z.of_nat (length results) - successful results)%Z.

(** A computation whose result and events do not depend on the files, and
    that leaves the files alone. *)
Definition files_blind {A} (m : M A) : Prop :=
  ∀ ev fs fs',
    m (World ev fs')
    = ((m (World ev fs)).1, World (events (m (World ev fs)).2) fs').

(** ** More runs to try the model on *)

(** The provider answers every query with an error object. *)
Definition rate_limited : Runtime :=
  small_runtime
    (fun _ _ => Ok (PDict [(lit "error", PStr (lit "Rate limit exceeded"))])).

(** The provider answers every query with [null]. *)
Definition null_answers : Runtime := small_runtime (fun _ _ => Ok PNone).

Definition demo_landmark : landmark :=
  Landmark demo_name demo_location 40.25%float (-124.375)%float.

(** * Proofs *)

(** ** The engine: what it finds, and that it finds a match if there is one *)

Lemma all_cons c x t : all c (x :: t) ↔ c x = true ∧ all c t.
Proof. unfold all; simpl. by rewrite andb_true_iff. Qed.

Lemma all_app c t u : all c (t ++ u) ↔ all c t ∧ all c u.
Proof. unfold all. rewrite forallb_app. by rewrite andb_true_iff. Qed.

Lemma all_impl (c c' : N → bool) t :
  (∀ x, c x = true → c' x = true) → all c t → all c' t.
Proof.
  intros Hcc. induction t as [|x t IH]; [done|].
  intros [Hx Ht]%all_cons. apply all_cons. auto.
Qed.

Section RepeatFacts.
Context {R : Type} (c : N -> bool) (k : nat -> str -> option R).

Lemma rep_star_skip pos s : is_Some (k pos s) → is_Some (rep_star c k pos s).
Proof.
  intros Hk. destruct s as [|x s]; simpl; [done|].
  destruct (c x); [|done]. by destruct (rep_star c k (S pos) s).
Qed.

Lemma rep_star_complete t : ∀ pos s',
  all c t → is_Some (k (pos + length t)%nat s') →
  is_Some (rep_star c k pos (t ++ s')).
Proof.
  induction t as [|x t IH]; intros pos s'; simpl.
  - rewrite Nat.add_0_r. intros _. apply rep_star_skip.
  - intros [Hx Ht]%all_cons Hk. rewrite Hx.
    rewrite Nat.add_succ_r in Hk.
    destruct (IH (S pos) s' Ht Hk) as [r ->]. by eexists.
Qed.

Lemma rep_plus_lazy_complete t : ∀ pos s',
  (1 ≤ length t)%nat → all c t → is_Some (k (pos + length t)%nat s') →
  is_Some (rep_plus_lazy c k pos (t ++ s')).
Proof.
  induction t as [|x t IH]; intros pos s'; simpl; [lia|].
  intros _ [Hx Ht]%all_cons Hk. rewrite Hx.
  destruct (k (S pos) (t ++ s')) as [r|] eqn:Hk1; [by eexists|].
  rewrite Nat.add_succ_r in Hk.
  destruct t as [|y t].
  - simpl in *. rewrite Nat.add_0_r in Hk. rewrite Hk1 in Hk. by destruct Hk.
  - apply IH; [simpl; lia|done|done].
Qed.

Lemma rep_star_none s : ∀ pos,
  rep_star c k pos s = None →
  ∀ t s', s = t ++ s' → all c t → k (pos + length t)%nat s' = None.
Proof.
  intros pos Hn t s' -> Ht.
  destruct (k (pos + length t)%nat s') as [r0|] eqn:Hk; [|done].
  destruct (rep_star_complete t pos s' Ht) as [r1 Hr]; [by eexists|].
  congruence.
Qed.

(** The greedy star stops at the longest run after which the rest
    succeeds. *)
Lemma rep_star_first s : ∀ pos r,
  rep_star c k pos s = Some r →
  ∃ t s', s = t ++ s' ∧ all c t ∧ k (pos + length t)%nat s' = Some r
          ∧ ∀ t' s'', s = t' ++ s'' → all c t' →
              (length t < length t')%nat →
              k (pos + length t')%nat s'' = None.
Proof.
  induction s as [|x s IH]; intros pos r; simpl.
  - intros Hk. exists [], []. simpl. rewrite Nat.add_0_r.
    do 3 (split; [done|]). intros [|y t'] s'' Heq _ Hlt; simpl in *; [lia|done].
  - destruct (c x) eqn:Hx.
    + destruct (rep_star c k (S pos) s) as [r0|] eqn:Hs.
      * intros [= <-].
        destruct (IH _ _ Hs) as (t & s' & -> & Ht & Hk & Hfirst).
        exists (x :: t), s'. split; [done|]. split; [by apply all_cons|].
        simpl. rewrite Nat.add_succ_r. split; [done|].
        intros [|y t'] s'' Heq Ht' Hlt; simpl in *; [lia|].
        simplify_eq. apply all_cons in Ht' as [_ Ht'].
        rewrite Nat.add_succ_r. apply Hfirst; [done|done|lia].
      * intros Hk. exists [], (x :: s). simpl. rewrite Nat.add_0_r.
        do 3 (split; [done|]).
        intros [|y t'] s'' Heq Ht' Hlt; simpl in *; [lia|].
        simplify_eq. apply all_cons in Ht' as [_ Ht'].
        rewrite Nat.add_succ_r.
        exact (rep_star_none _ (S pos) Hs _ _ eq_refl Ht').
    + intros Hk. exists [], (x :: s). simpl. rewrite Nat.add_0_r.
      do 3 (split; [done|]).
      intros [|y t'] s'' Heq Ht' Hlt; simpl in *; [lia|].
      simplify_eq. apply all_cons in Ht' as [? _]. congruence.
Qed.

(** The lazy plus stops at the shortest run after which the rest
    succeeds. *)
Lemma rep_plus_lazy_first s : ∀ pos r,
  rep_plus_lazy c k pos s = Some r →
  ∃ t s', s = t ++ s' ∧ (1 ≤ length t)%nat ∧ all c t
          ∧ k (pos + length t)%nat s' = Some r
          ∧ ∀ t' s'', s = t' ++ s'' → (1 ≤ length t')%nat →
              (length t' < length t)%nat →
              k (pos + length t')%nat s'' = None.
Proof.
  induction s as [|x s IH]; intros pos r; simpl; [done|].
  destruct (c x) eqn:Hx; [|done].
  destruct (k (S pos) s) as [r0|] eqn:Hk.
  - intros [= <-]. exists [x], s. simpl. rewrite Nat.add_1_r.
    split; [done|]. split; [lia|]. split; [by apply all_cons|].
    split; [done|]. intros; lia.
  - intros (t & s' & -> & Hn & Ht & Hk' & Hfirst)%IH.
    exists (x :: t), s'. split; [done|]. simpl. split; [lia|].
    split; [by apply all_cons|]. rewrite Nat.add_succ_r. split; [done|].
    intros [|y [|z t']] s'' Heq Hn' Hlt; simpl in *; [lia| |].
    + simplify_eq. by rewrite Nat.add_1_r.
    + simplify_eq. rewrite Nat.add_succ_r.
      apply (Hfirst (z :: t')); [done|simpl; lia|simpl; lia].
Qed.
End RepeatFacts.

Lemma exec_complete p : ∀ pos s m m',
  derives p pos s m m' → is_Some (exec p pos s m).
Proof.
  induction p as [|[c q|g|g] p IH]; intros pos s m m'; simpl.
  - by eexists.
  - intros (t & s' & -> & Hq & Ht & Hd). apply IH in Hd.
    destruct q; simpl in Hq.
    + destruct t as [|x [|y t]]; simplify_eq/=.
      apply all_cons in Ht as [-> _]. by rewrite Nat.add_1_r in Hd.
    + destruct t as [|x [|y t]]; simpl in *; [| |lia].
      * rewrite Nat.add_0_r in Hd. destruct s' as [|x s']; simpl; [done|].
        destruct (c x); [|done]. by destruct (exec p (S pos) s' m).
      * apply all_cons in Ht as [-> _]. rewrite Nat.add_1_r in Hd.
        destruct Hd as [r ->]. by eexists.
    + by apply rep_star_complete.
    + destruct t as [|x t]; simpl in *; [lia|].
      apply all_cons in Ht as [-> Ht]. rewrite Nat.add_succ_r in Hd.
      by apply rep_star_complete.
    + by apply rep_plus_lazy_complete.
  - apply IH.
  - apply IH.
Qed.

Lemma exec_first p : ∀ pos s m m',
  exec p pos s m = Some m' → first_match p pos s m m'.
Proof.
  induction p as [|[c q|g|g] p IH]; intros pos s m m'; simpl.
  - by intros [= <-].
  - assert (∀ pos' s'', exec p pos' s'' m = None →
              ∀ m'', ¬ derives p pos' s'' m m'') as Hnone.
    { intros pos' s'' Hn m'' [r Hr]%exec_complete. congruence. }
    destruct q.
    + destruct s as [|x s]; simpl; [done|].
      destruct (c x) eqn:Hx; [|done]. intros He.
      exists [x], s. split; [done|]. split; [done|].
      split; [by apply all_cons|]. simpl. rewrite Nat.add_1_r.
      split; [by apply IH|]. intros; done.
    + intros He. destruct s as [|x s]; simpl in He.
      * exists [], []. do 3 (split; [done||simpl; lia|]). simpl.
        rewrite Nat.add_0_r. split; [by apply IH|].
        intros [|y t'] s'' m'' Heq; simpl in *; [lia|done].
      * destruct (c x) eqn:Hx.
        -- destruct (exec p (S pos) s m) as [r|] eqn:H1.
           ++ simplify_eq. exists [x], s. split; [done|]. split; [simpl; lia|].
              split; [by apply all_cons|]. simpl. rewrite Nat.add_1_r.
              split; [by apply IH|]. simpl. intros; lia.
           ++ exists [], (x :: s). split; [done|]. split; [simpl; lia|].
              split; [done|]. simpl. rewrite Nat.add_0_r.
              split; [by apply IH|].
              intros [|y [|z t']] s'' m'' Heq Hc Ht' Hlt; simpl in *; try lia.
              simplify_eq. rewrite Nat.add_1_r. by apply Hnone.
        -- exists [], (x :: s). split; [done|]. split; [simpl; lia|].
           split; [done|]. simpl. rewrite Nat.add_0_r. split; [by apply IH|].
           intros [|y t'] s'' m'' Heq Hc Ht' Hlt; simpl in *; [lia|].
           simplify_eq. apply all_cons in Ht' as [? _]. congruence.
    + intros (t & s' & -> & Ht & Hk & Hfirst)%rep_star_first.
      exists t, s'. do 3 (split; [done|]). split; [by apply IH|].
      intros t' s'' m'' Heq _ Ht' Hlt. apply Hnone. by apply Hfirst.
    + destruct s as [|x s]; simpl; [done|].
      destruct (c x) eqn:Hx; [|done].
      intros (t & s' & -> & Ht & Hk & Hfirst)%rep_star_first.
      exists (x :: t), s'. split; [done|]. split; [simpl; lia|].
      split; [by apply all_cons|]. simpl. rewrite Nat.add_succ_r.
      split; [by apply IH|].
      intros [|y t'] s'' m'' Heq _ Ht' Hlt; simpl in *; [lia|].
      simplify_eq. apply all_cons in Ht' as [_ Ht'].
      rewrite Nat.add_succ_r. apply Hnone. apply Hfirst; [done|done|lia].
    + intros (t & s' & -> & Hn & Ht & Hk & Hfirst)%rep_plus_lazy_first.
      exists t, s'. do 3 (split; [done|]). split; [by apply IH|].
      intros t' s'' m'' Heq Hn' _ Hlt. apply Hnone. by apply Hfirst.
  - apply IH.
  - apply IH.
Qed.

(** ** The extractor *)

Lemma slice_spec (line a t b : str) i j :
  line = a ++ t ++ b → i = length a → j = (length a + length t)%nat →
  slice line i j = t.
Proof.
  intros -> -> ->. unfold slice. rewrite drop_app_length.
  replace (length a + length t - length a)%nat with (length t) by lia.
  by rewrite take_app_length.
Qed.

Lemma one_char c (t : str) :
  length t = 1%nat → all c t → ∃ x, t = [x] ∧ c x = true.
Proof.
  destruct t as [|x [|y t]]; simpl; try done.
  intros _ [Hx _]%all_cons. by exists x.
Qed.

Lemma one_chr a (t : str) : length t = 1%nat → all (chr a) t → t = [a].
Proof.
  intros Hn Ht. destruct (one_char _ _ Hn Ht) as (x & -> & Hx).
  unfold chr in Hx. by apply N.eqb_eq in Hx as ->.
Qed.

Ltac list_len := repeat (progress (rewrite ?length_app; simpl)); lia.

Ltac flat := repeat (progress (rewrite <- ?app_assoc; simpl)); reflexivity.

Ltac take_piece t := exists t; eexists; do 3 (split; [done|]).

Lemma first_match_derives p : ∀ pos s m m',
  first_match p pos s m m' → derives p pos s m m'.
Proof.
  induction p as [|[c q|g|g] p IH]; intros pos s m m'; simpl; [done| |apply IH..].
  intros (t & s' & -> & Hq & Ht & Hp & _). exists t, s'. eauto.
Qed.

Lemma run_unique c (a b : str) x y u v :
  all c a → all c b → c x = false → c y = false →
  a ++ x :: u = b ++ y :: v → a = b ∧ u = v.
Proof.
  revert b. induction a as [|a0 a IH]; intros [|b0 b]; simpl;
    intros Ha Hb Hx Hy Heq; simplify_eq.
  - done.
  - apply all_cons in Hb as [? _]. congruence.
  - apply all_cons in Ha as [? _]. congruence.
  - apply all_cons in Ha as [_ Ha]. apply all_cons in Hb as [_ Hb].
    destruct (IH b Ha Hb Hx Hy) as [-> ->]; done.
Qed.

Section Extractor.
Context `{RT : Runtime}.

Lemma tail_derives pos m ws2 d ws3 lat ws4 lon rest :
  (1 ≤ length ws2)%nat → all isspace ws2 → dash d = true →
  (1 ≤ length ws3)%nat → all isspace ws3 → numeral lat →
  all isspace ws4 → numeral lon →
  ∃ m', derives (drop 7 pattern) pos
          (lit ")" ++ ws2 ++ [d] ++ ws3 ++ lit "(" ++ lat ++ lit "," ++ ws4
           ++ lon ++ lit ")" ++ rest) m m'.
Proof.
  intros Hws2 Hws2' Hd Hws3 Hws3' Hlat Hws4 Hlon.
  destruct Hlat as (sg3 & ds3 & dt3 & fs3 & -> & ? & ? & ? & ? & ? & ? & ?).
  destruct Hlon as (sg4 & ds4 & dt4 & fs4 & -> & ? & ? & ? & ? & ? & ? & ?).
  eexists. unfold pattern, number_items. simpl.
  repeat (progress (rewrite <- ?app_assoc; simpl)).
  take_piece [41].
  take_piece ws2.
  exists [d]; eexists; do 2 (split; [done|]); split; [by apply all_cons|].
  take_piece ws3.
  take_piece [40].
  take_piece sg3.
  take_piece ds3.
  take_piece dt3.
  take_piece fs3.
  take_piece [44].
  take_piece ws4.
  take_piece sg4.
  take_piece ds4.
  take_piece dt4.
  take_piece fs4.
  exists [41], rest; do 3 (split; [done|]).
  reflexivity.
Qed.

Lemma middle_derives pos m ws1 loc tail :
  (1 ≤ length ws1)%nat → all isspace ws1 →
  (1 ≤ length loc)%nat → all any_but_nl loc →
  (∀ pos' m', ∃ m'', derives (drop 7 pattern) pos' tail m' m'') →
  ∃ m', derives (drop 2 pattern) pos (ws1 ++ lit "(" ++ loc ++ tail) m m'.
Proof.
  intros Hws1 Hws1' Hloc Hloc' Htail.
  unfold pattern, number_items in *. simpl in *.
  edestruct Htail as [m' Hm']. exists m'.
  take_piece ws1.
  take_piece [40].
  take_piece loc.
  exact Hm'.
Qed.

Lemma shape_derives line name loc lat lon :
  shape line name loc lat lon → ∃ m, derives pattern 0 line ∅ m.
Proof.
  intros (ws1 & ws2 & d & ws3 & ws4 & rest & -> & Hname & Hname' & Hws1 & Hws1'
          & Hloc & Hloc' & Hws2 & Hws2' & Hd & Hws3 & Hws3' & Hlat & Hws4 & Hlon).
  edestruct (middle_derives (0 + length name) (<[2%nat := 0%nat]> ∅) ws1 loc)
    as [m Hm]; [done..| |].
  { intros pos' m'. by apply (tail_derives pos' m' ws2 d ws3 lat ws4 lon rest). }
  exists m. take_piece name. exact Hm.
Qed.

Lemma pattern_first_shape line m :
  first_match pattern 0 line ∅ m →
  ∃ name loc lat lon,
    shape line name loc lat lon
    ∧ group line m 1 = name ∧ group line m 2 = loc
    ∧ group line m 3 = lat ∧ group line m 4 = lon
    ∧ ∀ name' loc' lat' lon',
        shape line name' loc' lat' lon' →
        (length name ≤ length name')%nat
        ∧ (length name' = length name → (length loc ≤ length loc')%nat).
Proof.
  unfold pattern, number_items.
  cbn [app first_match count_ok tried_before Nat.mul Nat.add].
  intros (name & ? & -> & Hname & Hname' &
          (ws1 & ? & -> & Hws1 & Hws1' &
          (lp1 & ? & -> & Hlp1 & Hlp1' &
          (loc & ? & -> & Hloc & Hloc' &
          (rp1 & ? & -> & Hrp1 & Hrp1' &
          (ws2 & ? & -> & Hws2 & Hws2' &
          (d & ? & -> & Hd & Hd' &
          (ws3 & ? & -> & Hws3 & Hws3' &
          (lp2 & ? & -> & Hlp2 & Hlp2' &
          (sg3 & ? & -> & Hsg3 & Hsg3' &
          (ds3 & ? & -> & Hds3 & Hds3' &
          (dt3 & ? & -> & Hdt3 & Hdt3' &
          (fs3 & ? & -> & _ & Hfs3' &
          (cm & ? & -> & Hcm & Hcm' &
          (ws4 & ? & -> & _ & Hws4' &
          (sg4 & ? & -> & Hsg4 & Hsg4' &
          (ds4 & ? & -> & Hds4 & Hds4' &
          (dt4 & ? & -> & Hdt4 & Hdt4' &
          (fs4 & ? & -> & _ & Hfs4' &
          (rp2 & rest & -> & Hrp2 & Hrp2' & -> & _)
          & _) & _) & _) & _) & _) & _) & _) & _) & _) & _) & _) & _) & _)
          & _) & _) & Hmin_loc) & _) & _) & Hmin_name).
  apply one_chr in Hlp1' as ->; [|done].
  apply one_chr in Hrp1' as ->; [|done].
  apply one_chr in Hlp2' as ->; [|done].
  apply one_chr in Hcm' as ->; [|done].
  apply one_chr in Hrp2' as ->; [|done].
  destruct (one_char _ _ Hd Hd') as (dd & -> & Hdd).
  exists name, loc, (sg3 ++ ds3 ++ dt3 ++ fs3), (sg4 ++ ds4 ++ dt4 ++ fs4).
  split.
  { exists ws1, ws2, dd, ws3, ws4, rest.
    split. { simpl. by rewrite <- !app_assoc. }
    repeat (split; [done|]).
    split. { by exists sg3, ds3, dt3, fs3. }
    split; [done|]. by exists sg4, ds4, dt4, fs4. }
  unfold group. simpl.
  repeat first [rewrite lookup_insert_eq | rewrite lookup_insert_ne by done].
  simpl.
  split; [|split; [|split; [|split]]].
  - eapply (slice_spec _ []); [simpl; reflexivity|done|simpl; lia].
  - eapply (slice_spec _ (name ++ ws1 ++ [40])); [flat|list_len..].
  - eapply (slice_spec _ (name ++ ws1 ++ [40] ++ loc ++ [41] ++ ws2 ++ [dd]
                            ++ ws3 ++ [40])); [flat|list_len..].
  - eapply (slice_spec _ (name ++ ws1 ++ [40] ++ loc ++ [41] ++ ws2 ++ [dd]
                            ++ ws3 ++ [40] ++ (sg3 ++ ds3 ++ dt3 ++ fs3)
                            ++ [44] ++ ws4)); [flat|list_len..].
  - intros name' loc' lat' lon'
      (ws1' & ws2' & d' & ws3' & ws4' & rest' & Heq & Hname1 & Hname1'
       & Hws11 & Hws11' & Hloc1 & Hloc1' & Hws21 & Hws21' & Hd1 & Hws31 & Hws31'
       & Hlat1 & Hws41 & Hlon1).
    pose proof (λ pos' m', tail_derives pos' m' ws2' d' ws3' lat' ws4' lon' rest'
                  Hws21 Hws21' Hd1 Hws31 Hws31' Hlat1 Hws41 Hlon1) as Htail.
    assert (length name ≤ length name')%nat as Hle.
    { destruct (le_lt_dec (length name) (length name')) as [|Hlt]; [done|].
      destruct (middle_derives (0 + length name') (<[2%nat := 0%nat]> ∅)
                  ws1' loc' _ Hws11 Hws11' Hloc1 Hloc1' Htail) as [m'' Hm''].
      exfalso. eapply (Hmin_name name'); [exact Heq|done|done|done|].
      exact Hm''. }
    split; [done|]. intros Hlen.
    apply app_inj_1 in Heq as [-> Heq]; [|done].
    change (lit "(") with [0x28] in Heq. cbn [app] in Heq.
    apply run_unique with (c := isspace) in Heq as [-> Heq]; [|done..].
    destruct (le_lt_dec (length loc) (length loc')) as [|Hlt]; [done|].
    edestruct Htail as [m'' Hm''].
    exfalso. eapply (Hmin_loc loc' _ m''); [exact Heq|done|done|done|].
    exact Hm''.
Qed.

Lemma re_match_some line m :
  re_match pattern line = Some m →
  shape line (group line m 1) (group line m 2) (group line m 3) (group line m 4)
  ∧ ∀ name' loc' lat' lon',
      shape line name' loc' lat' lon' →
      (length (group line m 1) ≤ length name')%nat
      ∧ (length name' = length (group line m 1) →
         (length (group line m 2) ≤ length loc')%nat).
Proof.
  intros Hm. apply exec_first, pattern_first_shape in Hm.
  by destruct Hm as (? & ? & ? & ? & ? & -> & -> & -> & -> & ?).
Qed.

Lemma re_match_none line : re_match pattern line = None → ¬ has_shape line.
Proof.
  intros Hm (name & loc & lat & lon & [m Hd%exec_complete]%shape_derives).
  unfold re_match in Hm. rewrite Hm in Hd. by destruct Hd.
Qed.

Lemma shape_numerals line name loc lat lon :
  shape line name loc lat lon → numeral lat ∧ numeral lon.
Proof. intros (? & ? & ? & ? & ? & ? & H). tauto. Qed.

(** C3: a line that, once trimmed, has the shape
    [<name> (<location>) <dash> (<lat>, <lon>)] gives exactly one record:
    the trimmed name, the trimmed location and the two numbers read by
    [float], for the split of the line with the shortest name and, for that
    name, the shortest location.  The line of the script's comment gives
    [Lost Coast Trail], [King Range, Humboldt/Mendocino], [float("40.28918")]
    and [float("-124.35588")]. *)
Theorem extract_line_fields :
  float_accepts_numerals →
  (∀ line, has_shape (strip line) →
     ∃ name location lat lon existing_lat existing_lon,
       shape (strip line) name location lat lon
       ∧ (∀ name' location' lat' lon',
            shape (strip line) name' location' lat' lon' →
            (length name ≤ length name')%nat
            ∧ (length name' = length name →
               (length location ≤ length location')%nat))
       ∧ float_of_str lat = Some existing_lat
       ∧ float_of_str lon = Some existing_lon
       ∧ extract_line line
         = Ok [Landmark (strip name) (strip location) existing_lat existing_lon])
  ∧ (∃ existing_lat existing_lon,
       float_of_str (lit "40.28918") = Some existing_lat
       ∧ float_of_str (lit "-124.35588") = Some existing_lon
       ∧ extract_line lost_coast_line
         = Ok [Landmark (lit "Lost Coast Trail")
                 (lit "King Range, Humboldt/Mendocino")
                 existing_lat existing_lon]).
Proof.
  intros Hfloat. split.
  - intros line Hs. unfold extract_line.
    destruct (re_match pattern (strip line)) as [m|] eqn:Hm;
      [|by apply re_match_none in Hm].
    destruct (re_match_some _ _ Hm) as [Hsh Hmin].
    destruct (shape_numerals _ _ _ _ _ Hsh) as [[x Hx]%Hfloat [y Hy]%Hfloat].
    exists (group (strip line) m 1), (group (strip line) m 2),
      (group (strip line) m 3), (group (strip line) m 4), x, y.
    rewrite Hx, Hy. done.
  - assert (numeral (lit "40.28918")) as [x Hx]%Hfloat.
    { exists [], (lit "40"), (lit "."), (lit "28918"). repeat split; simpl; lia. }
    assert (numeral (lit "-124.35588")) as [y Hy]%Hfloat.
    { exists (lit "-"), (lit "124"), (lit "."), (lit "35588").
      repeat split; simpl; lia. }
    exists x, y. do 2 (split; [done|]).
    transitivity
      (match float_of_str (lit "40.28918") with
       | None => Raise ValueError
       | Some a =>
           match float_of_str (lit "-124.35588") with
           | None => Raise ValueError
           | Some b =>
               Ok [Landmark (lit "Lost Coast Trail")
                     (lit "King Range, Humboldt/Mendocino") a b]
           end
       end).
    + vm_compute. reflexivity.
    + by rewrite Hx, Hy.
Qed.

Lemma extract_line_total :
  float_accepts_numerals →
  ∀ line, ∃ recs, extract_line line = Ok recs
                  ∧ (¬ has_shape (strip line) → recs = []).
Proof.
  intros Hfloat line. unfold extract_line.
  destruct (re_match pattern (strip line)) as [m|] eqn:Hm; [|by exists []].
  destruct (re_match_some _ _ Hm) as [Hsh _].
  destruct (shape_numerals _ _ _ _ _ Hsh) as [[x Hx]%Hfloat [y Hy]%Hfloat].
  rewrite Hx, Hy. eexists. split; [done|].
  intros []. red. eauto.
Qed.

Lemma extract_lines_spec :
  float_accepts_numerals →
  ∀ lines acc, ∃ per_line,
    extract_lines acc lines = Ok (acc ++ concat per_line)
    ∧ Forall2 (λ line recs, extract_line line = Ok recs
                            ∧ (¬ has_shape (strip line) → recs = []))
        lines per_line.
Proof.
  intros Hfloat lines. induction lines as [|line lines IH]; intros acc; simpl.
  - exists []. simpl. by rewrite app_nil_r.
  - destruct (extract_line_total Hfloat line) as (recs & Hl & Hno).
    rewrite Hl. destruct (IH (acc ++ recs)) as (per & -> & Hper).
    exists (recs :: per). simpl. rewrite app_assoc. split; [done|].
    by constructor.
Qed.

(** C4: a line that does not have the shape gives no record and no error;
    the extraction of any text succeeds, and its result is, line by line
    and in order, what each line gives. *)
Theorem extract_skips_other_lines :
  float_accepts_numerals →
  (∀ line, ¬ has_shape (strip line) → extract_line line = Ok [])
  ∧ (∀ content, ∃ per_line,
       extract_landmarks content = Ok (concat per_line)
       ∧ Forall2 (λ line recs, extract_line line = Ok recs
                               ∧ (¬ has_shape (strip line) → recs = []))
           (split_nl content) per_line).
Proof.
  intros Hfloat. split.
  - intros line Hno. destruct (extract_line_total Hfloat line) as (recs & -> & Hr).
    by rewrite Hr.
  - intros content. apply (extract_lines_spec Hfloat _ []).
Qed.
End Extractor.

(** ** The resolver *)

Section Resolver.
Context `{RT : Runtime}.

Lemma requested_two w url url' :
  World ((events w ++ [Request url]) ++ [Request url']) (files w)
  = requested w [url; url'].
Proof. unfold requested. simpl. by rewrite <- app_assoc. Qed.

Lemma attempt_primary name location w data :
  fetch_json (events w) (search_url (primary_query name location)) = Ok data →
  has_candidates data = Ok true →
  attempt_body name location w
  = (finish (first_candidate data),
     requested w [search_url (primary_query name location)]).
Proof.
  intros Hf Hc. unfold attempt_body, bind, fetch, lift, ret. rewrite Hf, Hc.
  simpl. by destruct (first_candidate data).
Qed.

Lemma attempt_fallback name location w simple_data :
  fetch_json (events w) (search_url (primary_query name location)) = Ok (PList []) →
  fetch_json (events w ++ [Request (search_url (primary_query name location))])
    (search_url (simple_query name)) = Ok simple_data →
  has_candidates simple_data = Ok true →
  attempt_body name location w
  = (finish (first_candidate simple_data),
     requested w [search_url (primary_query name location);
                  search_url (simple_query name)]).
Proof.
  intros Hf1 Hf2 Hc. unfold attempt_body, bind, fetch, lift, ret.
  rewrite Hf1. simpl. rewrite Hf2, Hc. simpl.
  rewrite requested_two. by destruct (first_candidate simple_data).
Qed.

Lemma attempt_no_candidates name location w :
  fetch_json (events w) (search_url (primary_query name location)) = Ok (PList []) →
  ∃ r, attempt_body name location w
       = (r, requested w [search_url (primary_query name location);
                          search_url (simple_query name)])
       ∧ (fetch_json (events w ++ [Request (search_url (primary_query name location))])
            (search_url (simple_query name)) = Ok (PList []) → r = Ok None).
Proof.
  intros Hf1. unfold attempt_body, bind, fetch, lift, ret.
  rewrite Hf1. simpl. rewrite requested_two.
  destruct (fetch_json _ (search_url (simple_query name))) as [sd|e] eqn:Hf2.
  - destruct (has_candidates sd) as [[]|e] eqn:Hc.
    + destruct (first_candidate sd); eexists; (split; [done|]);
        intros [= ->]; done.
    + eexists. split; [done|]. done.
    + eexists. split; [done|]. intros [= ->]. done.
  - eexists. split; [done|]. done.
Qed.

Lemma attempt_gets_run name location w data w' c more :
  attempt_gets name location w data w' →
  data = PList (c :: more) →
  attempt_body name location w = (finish (first_candidate data), w').
Proof.
  intros [[Hf ->]|(Hf1 & Hf2 & ->)] ->.
  - by apply attempt_primary.
  - by apply attempt_fallback.
Qed.

(** The retry loop, case by case. *)

Lemma retry_loop_returns {A} (body : M (option A)) retries attempt rest w r w' :
  body w = (Ok r, w') →
  retry_loop body retries (attempt :: rest) w = (Ok r, w').
Proof. intros Hb. simpl. unfold try_except. by rewrite Hb. Qed.

Lemma retry_loop_unexpected {A} (body : M (option A)) retries attempt rest w e w' :
  body w = (Raise e, w') → network_error e = false →
  retry_loop body retries (attempt :: rest) w = (Ok None, w').
Proof. intros Hb He. simpl. unfold try_except. by rewrite Hb, He. Qed.

Lemma retry_loop_again {A} (body : M (option A)) retries attempt rest w e w' :
  body w = (Raise e, w') → network_error e = true →
  (attempt < retries - 1)%nat →
  retry_loop body retries (attempt :: rest) w
  = retry_loop body retries rest (slept w').
Proof.
  intros Hb He Hlt. simpl. unfold try_except. rewrite Hb, He.
  apply Nat.ltb_lt in Hlt. by rewrite Hlt.
Qed.

Lemma retry_loop_gives_up {A} (body : M (option A)) retries attempt rest w e w' :
  body w = (Raise e, w') → network_error e = true →
  ¬ (attempt < retries - 1)%nat →
  retry_loop body retries (attempt :: rest) w = (Ok None, w').
Proof.
  intros Hb He Hlt. simpl. unfold try_except. rewrite Hb, He.
  apply Nat.ltb_nlt in Hlt. by rewrite Hlt.
Qed.

Lemma retry_loop_total {A} (body : M (option A)) retries attempts :
  ∀ w, ∃ r w', retry_loop body retries attempts w = (Ok r, w').
Proof.
  induction attempts as [|attempt rest IH]; intros w; simpl.
  - by eexists _, _.
  - unfold try_except. destruct (body w) as [[r|e] w'] eqn:Hb.
    + by eexists _, _.
    + destruct (network_error e); [|by eexists _, _].
      destruct (attempt <? retries - 1)%nat; [|by eexists _, _].
      unfold bind, sleep, emit. apply IH.
Qed.

Lemma geocode_landmark_total name location retries w :
  ∃ g w', geocode_landmark name location retries w = (Ok g, w').
Proof. apply retry_loop_total. Qed.

Lemma geocode_first_attempt name location retries w :
  (0 < retries)%nat →
  geocode_landmark name location retries w
  = retry_loop (attempt_body name location) retries
      (0%nat :: seq 1 (retries - 1)) w.
Proof.
  intros Hr. unfold geocode_landmark. destruct retries; [lia|].
  simpl. by rewrite Nat.sub_0_r.
Qed.


Lemma res_bind_error {A B} (r : res A) (f : A → res B) e :
  res_bind r f = Raise e → r = Raise e ∨ ∃ a, r = Ok a ∧ f a = Raise e.
Proof. destruct r as [a|e0]; simpl; [by right; exists a|by intros [= ->]; left]. Qed.

Lemma py_first_error v e : py_first v = Raise e → network_error e = false.
Proof. destruct v as [| | | |[|??]|[|??]|]; simpl; by intros [= <-]. Qed.

Lemma py_getitem_error v key e :
  py_getitem v key = Raise e → network_error e = false.
Proof.
  destruct v; simpl; try by intros [= <-].
  destruct (dict_get d key); by intros [= <-].
Qed.

Lemma py_get_error v key dflt e :
  py_get v key dflt = Raise e → network_error e = false.
Proof. destruct v; simpl; by intros [= <-]. Qed.

Lemma py_float_error v e : py_float v = Raise e → network_error e = false.
Proof.
  destruct v; simpl; try by intros [= <-].
  - destruct (float_of_int z); by intros [= <-].
  - destruct (float_of_str s); by intros [= <-].
Qed.

Lemma first_candidate_error data e :
  first_candidate data = Raise e → network_error e = false.
Proof.
  unfold first_candidate.
  intros [?%py_first_error|(result & _ & H)]%res_bind_error; [done|].
  revert H.
  intros [[?%py_getitem_error|(v & _ & ?%py_float_error)]%res_bind_error
         |(lat & _ & H)]%res_bind_error; [done..|].
  revert H.
  intros [[?%py_getitem_error|(v & _ & ?%py_float_error)]%res_bind_error
         |(lon & _ & H)]%res_bind_error; [done..|].
  revert H.
  intros [?%py_get_error|(label & _ & [=])]%res_bind_error. done.
Qed.

Lemma attempt_network_error name location w e w' :
  attempt_body name location w = (Raise e, w') → network_error e = true →
  w' = requested w [search_url (primary_query name location)]
  ∨ w' = requested w [search_url (primary_query name location);
                      search_url (simple_query name)].
Proof.
  unfold attempt_body, bind, fetch, lift, ret. simpl.
  destruct (fetch_json (events w) _) as [data|e1]; [|intros [= _ <-]; by left].
  destruct (has_candidates data) as [[]|e1] eqn:Hc.
  - destruct (first_candidate data); intros [= _ <-]; by left.
  - cbn [events files]. rewrite requested_two.
    destruct (fetch_json _ _) as [sd|e1]; [|intros [= _ <-]; by right].
    destruct (has_candidates sd) as [[]|e2]; [|intros [= _ <-]; by right..].
    destruct (first_candidate sd); intros [= _ <-]; by right.
  - intros [= _ <-]; by left.
Qed.

(** C5: when the primary query returns an empty list, the attempt makes
    exactly one more request, the fallback query on the name alone; when
    that one is empty too, the resolver returns nothing, having made these
    two requests and no other, wherever in the retry loop this happens. *)
Theorem fallback_query_once name location w :
  let url := search_url (name ++ lit ", " ++ location ++ lit ", California, USA") in
  let simple_url := search_url (name ++ lit ", California, USA") in
  fetch_json (events w) url = Ok (PList []) →
  (∃ r, attempt_body name location w = (r, requested w [url; simple_url]))
  ∧ (fetch_json (events w ++ [Request url]) simple_url = Ok (PList []) →
     (∀ retries attempt rest,
        retry_loop (attempt_body name location) retries (attempt :: rest) w
        = (Ok None, requested w [url; simple_url]))
     ∧ geocode_landmark name location default_retries w
       = (Ok None, requested w [url; simple_url])).
Proof.
  intros url simple_url Hf1.
  destruct (attempt_no_candidates name location w Hf1) as (r & Hrun & Hr).
  split; [by exists r|].
  intros Hf2. rewrite (Hr Hf2) in Hrun.
  split.
  - intros. by apply retry_loop_returns.
  - rewrite geocode_first_attempt by (unfold default_retries; lia).
    by apply retry_loop_returns.
Qed.

(** C6: when the query that decides an attempt returns a non-empty list
    whose first candidate has text for [lat], [lon] and [display_name], the
    resolver returns the two numbers read by [float] and the label as it
    is, whatever the other candidates are. *)
Theorem first_candidate_is_the_result name location w data w'
    cand more lat_text lon_text label new_lat new_lon :
  attempt_gets name location w data w' →
  data = PList (PDict cand :: more) →
  dict_get cand (lit "lat") = Some (PStr lat_text) →
  dict_get cand (lit "lon") = Some (PStr lon_text) →
  dict_get cand (lit "display_name") = Some (PStr label) →
  float_of_str lat_text = Some new_lat →
  float_of_str lon_text = Some new_lon →
  (∀ retries attempt rest,
     retry_loop (attempt_body name location) retries (attempt :: rest) w
     = (Ok (Some (new_lat, new_lon, PStr label)), w'))
  ∧ geocode_landmark name location default_retries w
    = (Ok (Some (new_lat, new_lon, PStr label)), w').
Proof.
  intros Hget Hdata Hlat Hlon Hlabel Hx Hy.
  assert (attempt_body name location w
          = (Ok (Some (new_lat, new_lon, PStr label)), w')) as Hrun.
  { rewrite (attempt_gets_run _ _ _ _ _ _ _ Hget Hdata). subst data.
    unfold finish, first_candidate. cbn -[lit].
    rewrite Hlat, Hlon, Hlabel. cbn -[lit]. by rewrite Hx, Hy. }
  split.
  - intros. by apply retry_loop_returns.
  - rewrite geocode_first_attempt by (unfold default_retries; lia).
    by apply retry_loop_returns.
Qed.

(** C7: when three attempts in a row raise a network error, the resolver
    returns nothing after the third; it has slept 2 between the attempts,
    not after the last, and each attempt made the primary request alone or
    the primary and the fallback request. *)
Theorem three_attempts_then_absent name location w e1 w1 e2 w2 e3 w3 :
  attempt_body name location w = (Raise e1, w1) → network_error e1 = true →
  attempt_body name location (slept w1) = (Raise e2, w2) →
  network_error e2 = true →
  attempt_body name location (slept w2) = (Raise e3, w3) →
  network_error e3 = true →
  geocode_landmark name location default_retries w = (Ok None, w3)
  ∧ ∃ q1 q2 q3,
      Forall (λ q, q = [search_url (primary_query name location)]
                   ∨ q = [search_url (primary_query name location);
                          search_url (simple_query name)]) [q1; q2; q3]
      ∧ events w3 = events w ++ map Request q1 ++ [Sleep 2]
                    ++ map Request q2 ++ [Sleep 2] ++ map Request q3.
Proof.
  intros H1 He1 H2 He2 H3 He3. split.
  - unfold geocode_landmark, default_retries. simpl seq.
    rewrite (retry_loop_again _ _ _ _ _ _ _ H1 He1) by lia.
    rewrite (retry_loop_again _ _ _ _ _ _ _ H2 He2) by lia.
    apply (retry_loop_gives_up _ _ _ _ _ _ _ H3 He3). lia.
  - assert (∀ v e v', attempt_body name location v = (Raise e, v') →
              network_error e = true →
              ∃ q, (q = [search_url (primary_query name location)]
                    ∨ q = [search_url (primary_query name location);
                           search_url (simple_query name)])
                   ∧ events v' = events v ++ map Request q) as Hq.
    { intros v e v' Hv He.
      destruct (attempt_network_error _ _ _ _ _ Hv He) as [-> | ->];
        eexists; (split; [|reflexivity]); auto. }
    destruct (Hq _ _ _ H1 He1) as (q1 & Hq1 & E1).
    destruct (Hq _ _ _ H2 He2) as (q2 & Hq2 & E2).
    destruct (Hq _ _ _ H3 He3) as (q3 & Hq3 & E3).
    exists q1, q2, q3. split; [by repeat apply Forall_cons_2|].
    rewrite E3. simpl. rewrite E2. simpl. rewrite E1.
    by rewrite <- !app_assoc.
Qed.

(** C8: when an attempt raises anything but a network error, the resolver
    returns nothing at once, in the world the attempt left, whatever
    attempts remain; no exception reaches the caller. *)
Theorem unexpected_failure_is_terminal name location w e w' :
  attempt_body name location w = (Raise e, w') →
  network_error e = false →
  (∀ retries attempt rest,
     retry_loop (attempt_body name location) retries (attempt :: rest) w
     = (Ok None, w'))
  ∧ geocode_landmark name location default_retries w = (Ok None, w').
Proof.
  intros Hrun He. split.
  - intros. by apply retry_loop_unexpected with e.
  - rewrite geocode_first_attempt by (unfold default_retries; lia).
    by apply retry_loop_unexpected with e.
Qed.

(** C10: when the first candidate has no [lat] or no [lon], or [float]
    raises on one of them, the resolver returns nothing; when only
    [display_name] is missing, it returns the coordinates with the empty
    text as label. *)
Theorem candidate_without_coordinates name location w w' cand more :
  attempt_gets name location w (PList (PDict cand :: more)) w' →
  ((dict_get cand (lit "lat") = None
    ∨ dict_get cand (lit "lon") = None
    ∨ (∃ v e, dict_get cand (lit "lat") = Some v ∧ py_float v = Raise e)
    ∨ (∃ v e, dict_get cand (lit "lon") = Some v ∧ py_float v = Raise e)) →
   geocode_landmark name location default_retries w = (Ok None, w'))
  ∧ (∀ lat_text lon_text new_lat new_lon,
       dict_get cand (lit "lat") = Some (PStr lat_text) →
       dict_get cand (lit "lon") = Some (PStr lon_text) →
       float_of_str lat_text = Some new_lat →
       float_of_str lon_text = Some new_lon →
       dict_get cand (lit "display_name") = None →
       geocode_landmark name location default_retries w
       = (Ok (Some (new_lat, new_lon, PStr [])), w')).
Proof.
  intros Hget.
  pose proof (attempt_gets_run _ _ _ _ _ _ _ Hget eq_refl) as Hrun.
  rewrite geocode_first_attempt by (unfold default_retries; lia).
  split.
  - intros Hbad.
    assert (∃ e, first_candidate (PList (PDict cand :: more)) = Raise e)
      as [e He].
    { unfold first_candidate. cbn -[lit py_float].
      destruct Hbad as [-> | [Hlon | [(v & e & -> & Hv) | (v & e & Hlon & Hv)]]].
      - by eexists.
      - destruct (dict_get cand (lit "lat")) as [v|]; cbn -[lit py_float];
          [|by eexists].
        destruct (py_float v); cbn -[lit py_float]; [|by eexists].
        rewrite Hlon. by eexists.
      - cbn -[lit py_float]. rewrite Hv. by eexists.
      - destruct (dict_get cand (lit "lat")) as [v0|]; cbn -[lit py_float];
          [|by eexists].
        destruct (py_float v0); cbn -[lit py_float]; [|by eexists].
        rewrite Hlon. cbn -[lit py_float]. rewrite Hv. by eexists. }
    rewrite He in Hrun. simpl in Hrun.
    apply retry_loop_unexpected with e; [done|].
    by apply first_candidate_error in He.
  - intros lat_text lon_text new_lat new_lon Hlat Hlon Hx Hy Hname.
    apply retry_loop_returns. rewrite Hrun.
    unfold finish, first_candidate. cbn -[lit].
    rewrite Hlat, Hlon, Hname. cbn -[lit]. by rewrite Hx, Hy.
Qed.

End Resolver.

(** ** The main loop and the reporter *)

Section Main.
Context `{RT : Runtime}.

Lemma keeps_ret {A} (a : A) : keeps_files (ret a).
Proof. done. Qed.

Lemma keeps_lift {A} (r : res A) : keeps_files (lift r).
Proof. done. Qed.

Lemma keeps_emit ev : keeps_files (emit ev).
Proof. done. Qed.

Lemma keeps_fetch url : keeps_files (fetch url).
Proof. done. Qed.

Lemma keeps_bind {A B} (m : M A) (f : A → M B) :
  keeps_files m → (∀ a, keeps_files (f a)) → keeps_files (bind m f).
Proof.
  intros Hm Hf w. unfold bind. specialize (Hm w).
  destruct (m w) as [[a|e] w1]; simpl in *; [|done].
  by rewrite Hf.
Qed.

Lemma keeps_try {A} (m : M A) (h : exn → M A) :
  keeps_files m → (∀ e, keeps_files (h e)) → keeps_files (try_except m h).
Proof.
  intros Hm Hh w. unfold try_except. specialize (Hm w).
  destruct (m w) as [[a|e] w1]; simpl in *; [done|].
  by rewrite Hh.
Qed.

Lemma keeps_attempt name location : keeps_files (attempt_body name location).
Proof.
  unfold attempt_body.
  repeat first [apply keeps_bind | apply keeps_fetch | apply keeps_lift
               | apply keeps_ret | intros [] | intro ].
Qed.

Lemma keeps_retry {A} (body : M (option A)) retries attempts :
  keeps_files body → keeps_files (retry_loop body retries attempts).
Proof.
  intros Hb. induction attempts as [|attempt rest IH]; simpl; [done|].
  apply keeps_try; [done|]. intros e.
  destruct (network_error e); [|done].
  destruct (attempt <? retries - 1)%nat; [|done].
  apply keeps_bind; [apply keeps_emit|done].
Qed.

Lemma keeps_geocode name location retries :
  keeps_files (geocode_landmark name location retries).
Proof. apply keeps_retry, keeps_attempt. Qed.

Lemma main_loop_spec landmarks : ∀ acc w,
  ∃ gs w', main_loop landmarks acc w
           = (Ok (acc ++ zip_with make_result landmarks gs), w')
           ∧ length gs = length landmarks
           ∧ files w' = files w.
Proof.
  induction landmarks as [|lm rest IH]; intros acc w; simpl.
  - exists [], w. by rewrite app_nil_r.
  - unfold bind at 1.
    destruct (geocode_landmark_total (lm_name lm) (lm_location lm)
                default_retries w) as (g & w1 & Hg).
    pose proof (keeps_geocode (lm_name lm) (lm_location lm) default_retries w)
      as Hk.
    rewrite Hg in *. simpl in Hk. unfold bind, sleep, emit. simpl.
    destruct (IH (acc ++ [make_result lm g])
                (World (events w1 ++ [Sleep (11 # 10)]) (files w1)))
      as (gs & w' & -> & Hlen & Hfiles).
    exists (g :: gs), w'. simpl. rewrite <- app_assoc. simpl.
    split; [done|]. split; [by rewrite Hlen|]. by rewrite Hfiles.
Qed.

Lemma landmark_of_make_result lm g : landmark_of (make_result lm g) = lm.
Proof. destruct lm, g as [[[??]?]|]; reflexivity. Qed.

Lemma map_landmark_of landmarks : ∀ gs,
  length gs = length landmarks →
  map landmark_of (zip_with make_result landmarks gs) = landmarks.
Proof.
  induction landmarks as [|lm rest IH]; intros [|g gs]; simpl; try done.
  intros [= Hlen]. by rewrite landmark_of_make_result, IH.
Qed.

(** C2: the main loop never raises, and its results are, in order, one
    record per landmark, each built from that landmark and from whatever the
    resolver returned for it. *)
Theorem main_loop_keeps_every_landmark landmarks w :
  ∃ results w',
    main_loop landmarks [] w = (Ok results, w')
    ∧ length results = length landmarks
    ∧ map landmark_of results = landmarks
    ∧ Forall2 (λ lm r, ∃ g, r = make_result lm g) landmarks results.
Proof.
  destruct (main_loop_spec landmarks [] w) as (gs & w' & Hrun & Hlen & _).
  eexists _, w'. split; [exact Hrun|]. simpl.
  split; [|split].
  - rewrite length_zip_with. lia.
  - by apply map_landmark_of.
  - clear Hrun. revert gs Hlen.
    induction landmarks as [|lm rest IH]; intros [|g gs]; simpl; try done.
    intros [= Hlen]. constructor; [by exists g|by apply IH].
Qed.

Lemma csv_row_spec lm g : csv_row (make_result lm g) = spec_csv_row lm g.
Proof. destruct g as [[[??]?]|]; reflexivity. Qed.

Lemma write_rows_spec results : ∀ w text,
  files w !! csv_file = Some text →
  write_rows results w
  = (Ok tt, World (events w)
              (<[csv_file := text ++ concat (map csv_row results)]> (files w))).
Proof.
  induction results as [|r rest IH]; intros [ev fs] text Hlook;
    cbn [write_rows map concat events files] in *.
  - unfold ret. rewrite app_nil_r. by rewrite insert_id.
  - unfold bind, write at 1. cbn [events files]. rewrite Hlook.
    cbn [default]. erewrite IH; [|cbn [files]; apply lookup_insert_eq].
    cbn [events files]. by rewrite insert_insert_eq, <- app_assoc.
Qed.

Lemma replace_comma_no_comma s : Forall (λ c, c ≠ 0x2C) (replace_comma s).
Proof.
  induction s as [|c s IH]; simpl; constructor; [|done].
  destruct (c =? 0x2C) eqn:Hc; [done|]. by apply N.eqb_neq.
Qed.

Lemma replace_comma_pointwise s :
  Forall2 (λ c c', c' = if c =? 0x2C then 0x3B else c) s (replace_comma s).
Proof. induction s; simpl; by constructor. Qed.

(** C9: after a run that read its input, [landmarks_coords.csv] holds the
    header [name,lat,lon] and then, in landmark order, one line per
    landmark: the name with every comma replaced by a semicolon, then the
    new coordinates if the resolver returned a result and the existing ones
    if not.  [Golden Gate, Park] becomes [Golden Gate; Park]. *)
Theorem csv_file_rows w content landmarks :
  files w !! input_file = Some content →
  extract_landmarks content = Ok landmarks →
  (∃ gs w1 w',
     length gs = length landmarks
     ∧ main_loop landmarks [] w = (Ok (zip_with make_result landmarks gs), w1)
     ∧ main w = (Ok tt, w')
     ∧ files w' !! csv_file
       = Some (lit "name,lat,lon" ++ [0x0A]
               ++ concat (zip_with spec_csv_row landmarks gs)))
  ∧ (∀ name, Forall (λ c, c ≠ 0x2C) (replace_comma name)
             ∧ Forall2 (λ c c', c' = if c =? 0x2C then 0x3B else c)
                 name (replace_comma name))
  ∧ replace_comma (lit "Golden Gate, Park") = lit "Golden Gate; Park".
Proof.
  intros Hin Hex. split; [|split; [|reflexivity]].
  - destruct (main_loop_spec landmarks [] w) as (gs & w1 & Hrun & Hlen & Hfs).
    simpl in Hrun.
    exists gs, w1. eexists. split; [done|]. split; [done|].
    unfold main, extract_landmarks_from_file, bind, read_file, lift.
    rewrite Hin, Hex, Hrun. unfold open_write, write at 1. cbn [events files].
    rewrite lookup_insert_eq. cbn [default].
    erewrite write_rows_spec; [|cbn [files]; apply lookup_insert_eq].
    split; [reflexivity|]. cbn [files]. rewrite lookup_insert_eq.
    unfold csv_header, id. rewrite app_nil_l, <- !app_assoc. do 3 f_equal.
    clear. revert gs.
    induction landmarks as [|lm rest IH]; intros [|g gs]; simpl; try done.
    by rewrite csv_row_spec, IH.
  - intros name. split; [apply replace_comma_no_comma|apply replace_comma_pointwise].
Qed.

Lemma write_rows_other results f : f ≠ csv_file →
  ∀ w, files (write_rows results w).2 !! f = files w !! f.
Proof.
  intros Hf. induction results as [|r rest IH]; intros w;
    cbn [write_rows]; [done|].
  unfold bind, write at 1. rewrite IH. cbn [files].
  by rewrite lookup_insert_ne.
Qed.

Lemma main_other_files f w : f ≠ csv_file →
  files (main w).2 !! f = files w !! f.
Proof.
  intros Hf. unfold main, extract_landmarks_from_file, bind, read_file, lift.
  destruct (files w !! input_file) as [content|]; [|done].
  destruct (extract_landmarks content) as [landmarks|e]; [|done].
  destruct (main_loop_spec landmarks [] w) as (gs & w1 & -> & _ & Hfs).
  unfold open_write, write at 1. rewrite write_rows_other by done.
  cbn [files]. rewrite !lookup_insert_ne by done. by rewrite Hfs.
Qed.

End Main.

(** C1: [main] never creates or changes [landmarks_with_coords.json].  On
    the one-line input, with a provider that always answers, the run ends
    normally and has written [landmarks_coords.csv], and there is no JSON
    file. *)
Theorem json_report_is_not_written :
  (∀ (RT : Runtime) w, files (main w).2 !! output_file = files w !! output_file)
  ∧ (@main one_result demo_world).1 = Ok tt
  ∧ is_Some (files (@main one_result demo_world).2 !! csv_file)
  ∧ files (@main one_result demo_world).2 !! output_file = None.
Proof.
  split; [|split; [|split]].
  - intros RT w. by apply main_other_files.
  - vm_compute. reflexivity.
  - vm_compute. by eexists.
  - by rewrite main_other_files.
Qed.

(** ** The statements above, on concrete runs *)

Lemma small_decimal net c :
  @is_decimal (small_runtime net) c = true → numeral_char c = true.
Proof.
  unfold is_decimal, numeral_char. simpl.
  destruct (c <? 128); [|done]. intros ->. apply orb_true_r.
Qed.

Lemma small_float_accepts net : @float_accepts_numerals (small_runtime net).
Proof.
  intros t (sg & ds & dt & fs & -> & _ & Hsg & Hds & Hds' & _ & Hdt & Hfs).
  assert (all numeral_char (sg ++ ds ++ dt ++ fs)) as Hall.
  { repeat (apply all_app; split).
    - revert Hsg. apply all_impl. unfold numeral_char. by intros x ->.
    - revert Hds'. apply all_impl, small_decimal.
    - revert Hdt. apply all_impl. unfold numeral_char. intros x ->.
      by rewrite orb_true_r.
    - revert Hfs. apply all_impl, small_decimal. }
  simpl. unfold small_float_of_str.
  destruct (sg ++ ds ++ dt ++ fs) as [|c t] eqn:Heq.
  - apply (f_equal length) in Heq. rewrite !length_app in Heq. simpl in Heq. lia.
  - rewrite Hall. by eexists.
Qed.

Lemma extract_line_fields_witness :
  @float_accepts_numerals offline
  ∧ ∃ existing_lat existing_lon,
      @extract_line offline lost_coast_line
      = Ok [Landmark (lit "Lost Coast Trail")
              (lit "King Range, Humboldt/Mendocino")
              existing_lat existing_lon].
Proof.
  split; [apply small_float_accepts|].
  destruct (@extract_line_fields offline (small_float_accepts _))
    as [_ (x & y & _ & _ & Hline)].
  by exists x, y.
Defined.

Lemma extract_skips_other_lines_witness :
  @float_accepts_numerals offline
  ∧ @extract_line offline (lit "# Northern California trails") = Ok []
  ∧ ∃ landmarks,
      @extract_landmarks offline
        (lit "# Northern California trails" ++ [0x0A] ++ lost_coast_line
         ++ [0x0A]) = Ok landmarks.
Proof.
  split; [apply small_float_accepts|].
  destruct (@extract_skips_other_lines offline (small_float_accepts _))
    as [Hline Hall].
  split.
  - apply Hline. apply re_match_none. vm_compute. reflexivity.
  - destruct (Hall (lit "# Northern California trails" ++ [0x0A]
                    ++ lost_coast_line ++ [0x0A])) as (per & Hper & _).
    by eexists.
Defined.

Lemma fallback_query_once_witness :
  @fetch_json no_results (events empty_world)
    (@search_url no_results
       (demo_name ++ lit ", " ++ demo_location ++ lit ", California, USA"))
  = Ok (PList [])
  ∧ @geocode_landmark no_results demo_name demo_location default_retries
      empty_world
    = (Ok None,
       requested empty_world
         [@search_url no_results
            (demo_name ++ lit ", " ++ demo_location ++ lit ", California, USA");
          @search_url no_results (demo_name ++ lit ", California, USA")]).
Proof.
  split; [reflexivity|].
  destruct (@fallback_query_once no_results demo_name demo_location empty_world
              eq_refl) as [_ Hboth].
  destruct (Hboth eq_refl) as [_ Hrun]. exact Hrun.
Defined.

Lemma first_candidate_is_the_result_witness :
  ∃ new_lat new_lon,
    @attempt_gets one_result demo_name demo_location empty_world demo_candidates
      (requested empty_world
         [@search_url one_result (primary_query demo_name demo_location)])
    ∧ @float_of_str one_result (lit "40.0182") = Some new_lat
    ∧ @float_of_str one_result (lit "-124.0690") = Some new_lon
    ∧ @geocode_landmark one_result demo_name demo_location default_retries
        empty_world
      = (Ok (Some (new_lat, new_lon,
                   PStr (lit "Lost Coast Trail, Humboldt County"))),
         requested empty_world
           [@search_url one_result (primary_query demo_name demo_location)]).
Proof.
  eexists _, _.
  assert (@attempt_gets one_result demo_name demo_location empty_world
            demo_candidates
            (requested empty_world
               [@search_url one_result (primary_query demo_name demo_location)]))
    as Hget by (left; split; reflexivity).
  split; [exact Hget|]. split; [reflexivity|]. split; [reflexivity|].
  apply (@first_candidate_is_the_result one_result demo_name demo_location
           empty_world demo_candidates _ _ [] (lit "40.0182") (lit "-124.0690")
           (lit "Lost Coast Trail, Humboldt County") _ _
           Hget eq_refl eq_refl eq_refl eq_refl eq_refl eq_refl).
Defined.

Lemma three_attempts_then_absent_witness :
  ∃ w1 w2 w3,
    @attempt_body offline demo_name demo_location empty_world
    = (Raise URLError, w1)
    ∧ @attempt_body offline demo_name demo_location (slept w1)
      = (Raise URLError, w2)
    ∧ @attempt_body offline demo_name demo_location (slept w2)
      = (Raise URLError, w3)
    ∧ network_error URLError = true
    ∧ @geocode_landmark offline demo_name demo_location default_retries
        empty_world = (Ok None, w3).
Proof.
  eexists _, _, _.
  split; [reflexivity|]. split; [reflexivity|]. split; [reflexivity|].
  split; [reflexivity|].
  eapply (@three_attempts_then_absent offline); reflexivity.
Defined.

Lemma unexpected_failure_is_terminal_witness :
  ∃ w',
    @attempt_body garbled demo_name demo_location empty_world
    = (Raise JSONDecodeError, w')
    ∧ network_error JSONDecodeError = false
    ∧ @geocode_landmark garbled demo_name demo_location default_retries
        empty_world = (Ok None, w').
Proof.
  eexists. split; [reflexivity|]. split; [reflexivity|].
  eapply (@unexpected_failure_is_terminal garbled); reflexivity.
Defined.

Lemma candidate_without_coordinates_witness :
  @attempt_gets no_latitude demo_name demo_location empty_world
    demo_broken_candidates
    (requested empty_world
       [@search_url no_latitude (primary_query demo_name demo_location)])
  ∧ @geocode_landmark no_latitude demo_name demo_location default_retries
      empty_world
    = (Ok None,
       requested empty_world
         [@search_url no_latitude (primary_query demo_name demo_location)]).
Proof.
  assert (@attempt_gets no_latitude demo_name demo_location empty_world
            demo_broken_candidates
            (requested empty_world
               [@search_url no_latitude (primary_query demo_name demo_location)]))
    as Hget by (left; split; reflexivity).
  split; [exact Hget|].
  apply (@candidate_without_coordinates no_latitude _ _ _ _ _ _ Hget).
  left. reflexivity.
Defined.

Lemma csv_file_rows_witness :
  ∃ landmarks,
    files demo_world !! input_file = Some lost_coast_line
    ∧ @extract_landmarks one_result lost_coast_line = Ok landmarks
    ∧ ∃ gs w',
        @main one_result demo_world = (Ok tt, w')
        ∧ files w' !! csv_file
          = Some (lit "name,lat,lon" ++ [0x0A]
                  ++ concat (zip_with (@spec_csv_row one_result) landmarks gs)).
Proof.
  eexists.
  assert (files demo_world !! input_file = Some lost_coast_line) as Hin
    by (vm_compute; reflexivity).
  split; [exact Hin|]. split; [vm_compute; reflexivity|].
  destruct (@csv_file_rows one_result demo_world lost_coast_line _ Hin eq_refl)
    as [(gs & w1 & w' & _ & _ & Hmain & Hcsv) _].
  by exists gs, w'.
Defined.

(** * Further properties of the script *)

Lemma count_events_app p tr tr' :
  count_events p (tr ++ tr') = (count_events p tr + count_events p tr')%nat.
Proof. unfold count_events. by rewrite List.filter_app, length_app. Qed.

Section ResolverMore.
Context `{RT : Runtime}.

Lemma attempt_requests name location w :
  ∃ r q, attempt_body name location w = (r, requested w q)
         ∧ (q = [search_url (primary_query name location)]
            ∨ q = [search_url (primary_query name location);
                   search_url (simple_query name)]).
Proof.
  unfold attempt_body, bind, fetch, lift, ret. cbn [events files].
  destruct (fetch_json (events w) _) as [data|e1];
    [|by eexists _, [_]; split; [reflexivity|left]].
  destruct (has_candidates data) as [[]|e1];
    [| |by eexists _, [_]; split; [reflexivity|left]].
  - destruct (first_candidate data);
      by eexists _, [_]; split; [reflexivity|left].
  - cbn [events files]. rewrite requested_two.
    destruct (fetch_json _ _) as [sd|e1];
      [|by eexists _, [_; _]; split; [reflexivity|right]].
    destruct (has_candidates sd) as [[]|e2];
      [|by eexists _, [_; _]; split; [reflexivity|right]..].
    destruct (first_candidate sd);
      by eexists _, [_; _]; split; [reflexivity|right].
Qed.

Lemma retry_loop_bounded name location retries k : ∀ a w,
  (a + k = retries)%nat →
  ∃ g tr,
    retry_loop (attempt_body name location) retries (seq a k) w
    = (Ok g, World (events w ++ tr) (files w))
    ∧ Forall (λ ev, ev = Request (search_url (primary_query name location))
                    ∨ ev = Request (search_url (simple_query name))
                    ∨ ev = Sleep 2) tr
    ∧ (count_events is_request tr ≤ 2 * k)%nat
    ∧ (count_events is_sleep tr ≤ k - 1)%nat.
Proof.
  induction k as [|k IH]; intros a w Hak; simpl.
  - exists None, []. rewrite app_nil_r. destruct w. by repeat split.
  - unfold try_except.
    destruct (attempt_requests name location w) as (r & q & -> & Hq).
    assert (Forall (λ ev, ev = Request (search_url (primary_query name location))
                    ∨ ev = Request (search_url (simple_query name))
                    ∨ ev = Sleep 2) (map Request q)
            ∧ (count_events is_request (map Request q) ≤ 2)%nat
            ∧ count_events is_sleep (map Request q) = 0%nat) as (Hall & Hreq & Hsl).
    { destruct Hq as [-> | ->]; (split; [repeat constructor; auto|]);
        split; simpl; unfold count_events; simpl; lia. }
    assert (∀ g : option geocode_result, ∃ g' tr,
              (Ok g, requested w q) = (Ok g', World (events w ++ tr) (files w))
              ∧ Forall (λ ev, ev = Request (search_url (primary_query name location))
                    ∨ ev = Request (search_url (simple_query name))
                    ∨ ev = Sleep 2) tr
              ∧ (count_events is_request tr ≤ 2 * S k)%nat
              ∧ (count_events is_sleep tr ≤ S k - 1)%nat) as Hstop.
    { intros g. exists g, (map Request q). split; [done|]. split; [done|].
      split; lia. }
    destruct r as [g|e]; [apply Hstop|].
    destruct (network_error e); [|apply Hstop].
    destruct (a <? retries - 1)%nat eqn:Hlt; [|apply Hstop].
    apply Nat.ltb_lt in Hlt.
    unfold bind, sleep, emit. cbn [events files requested].
    destruct (IH (S a) (World ((events w ++ map Request q) ++ [Sleep 2]) (files w)))
      as (g & tr & -> & Htr & Hr & Hs); [lia|].
    cbn [events files].
    exists g, (map Request q ++ [Sleep 2] ++ tr).
    split; [by rewrite <- !app_assoc|].
    split. { apply Forall_app. split; [done|]. constructor; auto. }
    rewrite !count_events_app.
    change (count_events is_request [Sleep 2]) with 0%nat.
    change (count_events is_sleep [Sleep 2]) with 1%nat.
    split; lia.
Qed.

(** X1: for any retry budget and whatever the network answers, the resolver
    returns without raising, leaves the files alone, requests only its two
    URLs, makes at most two requests per attempt allowed and sleeps at most
    once less than the attempts allowed; with a budget of 0 it does
    nothing. *)
Theorem geocode_landmark_is_bounded name location retries w :
  ∃ g tr,
    geocode_landmark name location retries w
    = (Ok g, World (events w ++ tr) (files w))
    ∧ Forall (λ ev, ev = Request (search_url (primary_query name location))
                    ∨ ev = Request (search_url (simple_query name))
                    ∨ ev = Sleep 2) tr
    ∧ (count_events is_request tr ≤ 2 * retries)%nat
    ∧ (count_events is_sleep tr ≤ retries - 1)%nat.
Proof. by apply retry_loop_bounded. Qed.



Lemma attempt_some name location w r w' :
  attempt_body name location w = (Ok (Some r), w') →
  ∃ tr url data,
    (url = search_url (primary_query name location)
     ∨ url = search_url (simple_query name))
    ∧ fetch_json (events w ++ tr) url = Ok data
    ∧ has_candidates data = Ok true
    ∧ first_candidate data = Ok r.
Proof.
  unfold attempt_body, bind, fetch, lift, ret. cbn [events files].
  destruct (fetch_json (events w) _) as [data|e1] eqn:Hf1; [|done].
  destruct (has_candidates data) as [[]|e1] eqn:Hc1; [| |done].
  - destruct (first_candidate data) as [r1|] eqn:Hr1; [|done].
    intros [= <- _].
    exists [], (search_url (primary_query name location)), data.
    rewrite app_nil_r. auto.
  - cbn [events files].
    destruct (fetch_json (events w ++ _) _) as [sd|e1] eqn:Hf2; [|done].
    destruct (has_candidates sd) as [[]|e2] eqn:Hc2; [|done..].
    destruct (first_candidate sd) as [r1|] eqn:Hr1; [|done].
    intros [= <- _].
    exists [Request (search_url (primary_query name location))],
      (search_url (simple_query name)), sd. auto.
Qed.

Lemma retry_loop_some name location retries attempts : ∀ w r w',
  retry_loop (attempt_body name location) retries attempts w
  = (Ok (Some r), w') →
  ∃ tr url data,
    (url = search_url (primary_query name location)
     ∨ url = search_url (simple_query name))
    ∧ fetch_json (events w ++ tr) url = Ok data
    ∧ has_candidates data = Ok true
    ∧ first_candidate data = Ok r.
Proof.
  induction attempts as [|a rest IH]; intros w r w'; simpl; [done|].
  unfold try_except.
  destruct (attempt_body name location w) as [[g|e] w1] eqn:Hb.
  - intros [= -> ->]. by eapply attempt_some.
  - destruct (network_error e); [|done].
    destruct (a <? retries - 1)%nat; [|done].
    unfold bind, sleep, emit. cbn [events files].
    intros (tr & url & data & Hurl & Hf & Hc)%IH.
    destruct (attempt_requests name location w) as (r0 & q & Hq & _).
    rewrite Hb in Hq. injection Hq as _ ->.
    cbn [events files requested] in Hf. rewrite <- !app_assoc in Hf.
    by eexists _, url, data.
Qed.


Lemma retry_loop_down name location retries k : ∀ a w,
  (∀ hist url, ∃ e, fetch_json hist url = Raise e ∧ network_error e = true) →
  (a + k = retries)%nat →
  retry_loop (attempt_body name location) retries (seq a k) w
  = (Ok None,
     World (events w ++ down_trace k (search_url (primary_query name location)))
       (files w)).
Proof.
  intros a w Hdown. revert a w.
  induction k as [|k IH]; intros a w Hak; simpl.
  - unfold ret. rewrite app_nil_r. by destruct w.
  - unfold try_except, attempt_body, bind, fetch at 1. cbn [events files].
    destruct (Hdown (events w) (search_url (primary_query name location)))
      as (e & -> & ->).
    destruct k as [|k].
    + replace (a <? retries - 1)%nat with false; [done|].
      symmetry. apply Nat.ltb_nlt. lia.
    + replace (a <? retries - 1)%nat with true
        by (symmetry; apply Nat.ltb_lt; lia).
      unfold sleep, emit. cbn [events files].
      rewrite (IH (S a)) by lia. cbn [events files].
      by rewrite <- !app_assoc.
Qed.

(** X3: when every request fails with a network error, the resolver with any
    retry budget [n] makes exactly [n] requests, all of them the primary
    one, sleeps 2 between two requests and not after the last, and returns
    nothing. *)
Theorem network_down_trace name location retries w :
  (∀ hist url, ∃ e, fetch_json hist url = Raise e ∧ network_error e = true) →
  geocode_landmark name location retries w
  = (Ok None,
     World (events w ++ down_trace retries
              (search_url (name ++ lit ", " ++ location ++ lit ", California, USA")))
       (files w)).
Proof. intros Hdown. by apply retry_loop_down. Qed.

End ResolverMore.

Section MainMore.
Context `{RT : Runtime}.

Lemma main_loop_run landmarks : ∀ acc w,
  ∃ runs : list (option geocode_result * list event),
    main_loop landmarks acc w
    = (Ok (acc ++ zip_with make_result landmarks (map fst runs)),
       World (events w
              ++ concat (map (λ run, run.2 ++ [Sleep (11 # 10)]) runs))
         (files w))
    ∧ Forall2 (λ lm run, ∃ w0,
                 geocode_landmark (lm_name lm) (lm_location lm) default_retries w0
                 = (Ok run.1, World (events w0 ++ run.2) (files w0)))
        landmarks runs.
Proof.
  induction landmarks as [|lm rest IH]; intros acc w; simpl.
  - exists []. simpl. rewrite !app_nil_r. destruct w. by split.
  - unfold bind at 1.
    destruct (retry_loop_bounded (lm_name lm) (lm_location lm) default_retries
                default_retries 0 w eq_refl) as (g & tr & Hg & _).
    fold (geocode_landmark (lm_name lm) (lm_location lm) default_retries) in Hg.
    rewrite Hg. unfold bind, sleep, emit. cbn [events files].
    destruct (IH (acc ++ [make_result lm g])
                (World ((events w ++ tr) ++ [Sleep (11 # 10)]) (files w)))
      as (runs & -> & Hruns).
    exists ((g, tr) :: runs). cbn [events files map fst snd concat zip_with].
    rewrite <- !app_assoc. split; [done|].
    constructor; [by exists w|done].
Qed.

(** X4: the events of the main loop are, landmark by landmark, the events of
    the resolver followed by a sleep of 1.1; the resolver's part holds at
    most 6 requests and 2 sleeps of 2, so two landmarks are always
    separated by the pacing sleep. *)
Theorem main_loop_paces_requests landmarks w :
  ∃ results traces w',
    main_loop landmarks [] w = (Ok results, w')
    ∧ length traces = length landmarks
    ∧ events w' = events w
                  ++ concat (map (λ tr, tr ++ [Sleep (11 # 10)]) traces)
    ∧ Forall (λ tr, Forall (λ ev, is_request ev = true ∨ ev = Sleep 2) tr
                    ∧ (count_events is_request tr ≤ 6)%nat
                    ∧ (count_events is_sleep tr ≤ 2)%nat) traces.
Proof.
  destruct (main_loop_run landmarks [] w) as (runs & Hrun & Hruns).
  eexists _, (map snd runs), _. split; [exact Hrun|]. cbn [events].
  split; [rewrite length_map; symmetry; by eapply Forall2_length|].
  split. { f_equal. f_equal. by rewrite map_map. }
  clear Hrun. induction Hruns as [|lm [g tr] lms runs [w0 Hg] _ IH]; simpl;
    constructor; [|done].
  destruct (retry_loop_bounded (lm_name lm) (lm_location lm) default_retries
              default_retries 0 w0 eq_refl) as (g' & tr' & Hg' & Hall & Hr & Hs).
  fold (geocode_landmark (lm_name lm) (lm_location lm) default_retries) in Hg'.
  rewrite Hg in Hg'. injection Hg' as _ Heq. apply app_inv_head in Heq as <-.
  split; [|split; [exact Hr|exact Hs]].
  eapply Forall_impl; [exact Hall|]. intros ev [-> | [-> | ->]]; auto.
Qed.

Lemma filter_zip_make_result (p : outcome → bool) landmarks : ∀ gs,
  length gs = length landmarks →
  (∀ lm g, p (make_result lm g) = match g with Some _ => true | None => false end) →
  length (List.filter p (zip_with make_result landmarks gs))
  = length (List.filter (λ g : option geocode_result,
                           match g with Some _ => true | None => false end) gs).
Proof.
  induction landmarks as [|lm rest IH]; intros [|g gs]; simpl; try done.
  intros [= Hlen] Hp. rewrite Hp. destruct g; simpl; rewrite IH; auto.
Qed.

Lemma filter_zip_make_result_none (p : outcome → bool) landmarks : ∀ gs,
  length gs = length landmarks →
  (∀ lm g, p (make_result lm g) = match g with Some _ => false | None => true end) →
  (length (List.filter p (zip_with make_result landmarks gs))
   + length (List.filter (λ g : option geocode_result,
                            match g with Some _ => true | None => false end) gs)
   = length landmarks)%nat.
Proof.
  induction landmarks as [|lm rest IH]; intros [|g gs]; simpl; try done.
  intros [= Hlen] Hp. rewrite Hp. specialize (IH gs Hlen Hp).
  destruct g; simpl; lia.
Qed.

(** X5: the two counts of the summary add up to the number of landmarks;
    [successful] counts the records that carry a coordinate difference and
    [failed] those that carry the error marker. *)
Theorem summary_counts landmarks w results w' :
  main_loop landmarks [] w = (Ok results, w') →
  (successful results + failed results = Z.of_nat (length landmarks))%Z
  ∧ successful results
    = Z.of_nat (length (List.filter
                          (λ r, match o_coord_difference r with
                                | Some _ => true | None => false end) results))
  ∧ failed results
    = Z.of_nat (length (List.filter
                          (λ r, match o_error r with
                                | Some _ => true | None => false end) results)).
Proof.
  destruct (main_loop_run landmarks [] w) as (runs & Hrun & Hruns).
  rewrite Hrun. intros [= <- _]. cbn [app].
  assert (length (map fst runs) = length landmarks) as Hlen.
  { rewrite length_map. symmetry. by eapply Forall2_length. }
  unfold failed, successful. rewrite length_zip_with, Hlen, Nat.min_id.
  pose proof (filter_zip_make_result
                (λ r, match o_new_coords r with Some _ => true | None => false end)
                landmarks (map fst runs) Hlen) as H1.
  pose proof (filter_zip_make_result
                (λ r, match o_coord_difference r with
                      | Some _ => true | None => false end)
                landmarks (map fst runs) Hlen) as H2.
  pose proof (filter_zip_make_result_none
                (λ r, match o_error r with Some _ => true | None => false end)
                landmarks (map fst runs) Hlen) as H3.
  rewrite H1, H2 by (by intros lm [[[? ?] ?]|]).
  specialize (H3 ltac:(by intros lm [[[? ?] ?]|])).
  split; [lia|]. split; [done|]. lia.
Qed.

End MainMore.

Section ReporterMore.
Context `{RT : Runtime}.

Lemma main_run w content landmarks results w1 :
  files w !! input_file = Some content →
  extract_landmarks content = Ok landmarks →
  main_loop landmarks [] w = (Ok results, w1) →
  main w
  = (Ok tt,
     World (events w1)
       (<[csv_file := csv_header ++ concat (map csv_row results)]> (files w1))).
Proof.
  intros Hin Hex Hrun.
  unfold main, extract_landmarks_from_file, bind, read_file, lift.
  rewrite Hin, Hex, Hrun. unfold open_write, write at 1. cbn [events files].
  rewrite lookup_insert_eq. cbn [default].
  erewrite write_rows_spec; [|cbn [files]; apply lookup_insert_eq].
  cbn [events files]. unfold id. by rewrite app_nil_l, !insert_insert_eq.
Qed.

(** X6: [main] raises only while reading: the input file is missing, or a
    line made [float] raise.  Then the world is as it was: no request was
    made and no file was written. *)
Theorem main_fails_before_acting w e w' :
  main w = (Raise e, w') →
  w' = w
  ∧ ((files w !! input_file = None ∧ e = FileError)
     ∨ ∃ content, files w !! input_file = Some content
                  ∧ extract_landmarks content = Raise e).
Proof.
  destruct (files w !! input_file) as [content|] eqn:Hin.
  - destruct (extract_landmarks content) as [landmarks|e0] eqn:Hex.
    + destruct (main_loop_run landmarks [] w) as (runs & Hrun & _).
      by rewrite (main_run _ _ _ _ _ Hin Hex Hrun).
    + unfold main, extract_landmarks_from_file, bind, read_file, lift.
      rewrite Hin, Hex. intros [= <- <-]. split; [done|]. right. by exists content.
  - unfold main, extract_landmarks_from_file, bind, read_file, lift.
    rewrite Hin. intros [= <- <-]. split; [done|]. by left.
Qed.

(** X7: whatever happens, [main] leaves every file but
    [landmarks_coords.csv] as it was, the input file included. *)
Theorem main_changes_only_the_csv_file w f :
  f ≠ csv_file → files (main w).2 !! f = files w !! f.
Proof. intros Hf. by apply main_other_files. Qed.

Lemma blind_bind {A B} (m : M A) (f : A → M B) :
  files_blind m → (∀ a, files_blind (f a)) → files_blind (bind m f).
Proof.
  intros Hm Hf ev fs fs'. unfold bind. rewrite (Hm ev fs fs').
  destruct (m (World ev fs)) as [[a|e] [ev1 fs1]]; cbn [fst snd events];
    [apply Hf|done].
Qed.

Lemma blind_try {A} (m : M A) (h : exn → M A) :
  files_blind m → (∀ e, files_blind (h e)) → files_blind (try_except m h).
Proof.
  intros Hm Hh ev fs fs'. unfold try_except. rewrite (Hm ev fs fs').
  destruct (m (World ev fs)) as [[a|e] [ev1 fs1]]; cbn [fst snd events];
    [done|apply Hh].
Qed.

Lemma blind_attempt name location : files_blind (attempt_body name location).
Proof.
  unfold attempt_body.
  repeat first [apply blind_bind | intros [] | intro | done].
Qed.

Lemma blind_retry {A} (body : M (option A)) retries attempts :
  files_blind body → files_blind (retry_loop body retries attempts).
Proof.
  intros Hb. induction attempts as [|attempt rest IH]; simpl; [done|].
  apply blind_try; [done|]. intros e.
  destruct (network_error e); [|done].
  destruct (attempt <? retries - 1)%nat; [|done].
  apply blind_bind; done.
Qed.

Lemma blind_main_loop landmarks : ∀ results, files_blind (main_loop landmarks results).
Proof.
  induction landmarks as [|lm rest IH]; intros results; simpl; [done|].
  apply blind_bind; [apply blind_retry, blind_attempt|]. intros g.
  apply blind_bind; [done|]. intros _. apply IH.
Qed.

(** X8: a CSV file left by an earlier run has no influence: a successful run
    ends in the same world whatever [landmarks_coords.csv] held before. *)
Theorem main_overwrites_a_stale_csv w w' old :
  main w = (Ok tt, w') →
  main (World (events w) (<[csv_file := old]> (files w))) = (Ok tt, w').
Proof.
  intros Hmain.
  destruct (files w !! input_file) as [content|] eqn:Hin; cycle 1.
  { unfold main, extract_landmarks_from_file, bind, read_file, lift in Hmain.
    by rewrite Hin in Hmain. }
  destruct (extract_landmarks content) as [landmarks|e0] eqn:Hex; cycle 1.
  { unfold main, extract_landmarks_from_file, bind, read_file, lift in Hmain.
    by rewrite Hin, Hex in Hmain. }
  destruct (main_loop_run landmarks [] w) as (runs & Hrun & _).
  rewrite (main_run _ _ _ _ _ Hin Hex Hrun) in Hmain.
  pose proof (blind_main_loop landmarks [] (events w) (files w)
                (<[csv_file := old]> (files w))) as Hblind.
  destruct w as [ev fs]. cbn [events files] in *.
  rewrite Hrun in Hblind. cbn [fst snd events] in Hblind.
  erewrite main_run; [|cbn [files]; rewrite lookup_insert_ne by done; exact Hin
                      |exact Hex|exact Hblind].
  cbn [events files]. rewrite insert_insert_eq. exact Hmain.
Qed.

Lemma geocode_finds_nothing name location retries w g w' :
  (∀ hist url, fetch_json hist url = Ok (PList [])
               ∨ ∃ e, fetch_json hist url = Raise e) →
  geocode_landmark name location retries w = (Ok g, w') → g = None.
Proof.
  intros Hnothing Hg. destruct g as [r|]; [|done].
  apply retry_loop_some in Hg as (tr & url & data & _ & Hf & Hc & _).
  destruct (Hnothing (events w ++ tr) url) as [Hempty|[e He]];
    rewrite Hf in *; by simplify_eq.
Qed.

(** X9: when every request fails or returns an empty list, the run still
    succeeds and the CSV file lists every landmark with the coordinates of
    the input file. *)
Theorem csv_keeps_existing_coordinates w content landmarks :
  (∀ hist url, fetch_json hist url = Ok (PList [])
               ∨ ∃ e, fetch_json hist url = Raise e) →
  files w !! input_file = Some content →
  extract_landmarks content = Ok landmarks →
  ∃ w', main w = (Ok tt, w')
        ∧ files w' !! csv_file
          = Some (lit "name,lat,lon" ++ [0x0A]
                  ++ concat (map (λ lm, replace_comma (lm_name lm) ++ lit ","
                                        ++ float_repr (lm_lat lm) ++ lit ","
                                        ++ float_repr (lm_lon lm) ++ [0x0A])
                               landmarks)).
Proof.
  intros Hnothing Hin Hex.
  destruct (main_loop_run landmarks [] w) as (runs & Hrun & Hruns).
  eexists. split; [exact (main_run _ _ _ _ _ Hin Hex Hrun)|].
  cbn [files app]. rewrite lookup_insert_eq. unfold csv_header.
  rewrite <- !app_assoc. do 4 f_equal. clear Hrun Hex Hin.
  induction Hruns as [|lm [g tr] lms runs [w0 Hg] _ IH]; [done|].
  cbn [map fst zip_with]. rewrite IH.
  apply (geocode_finds_nothing _ _ _ _ _ _ Hnothing) in Hg. simpl in Hg.
  by subst g.
Qed.

End ReporterMore.

(** ** More on the extractor *)

Lemma all_rev c (t : str) : all c (rev t) ↔ all c t.
Proof.
  induction t as [|x t IH]; simpl; [done|].
  rewrite all_app, all_cons, IH, all_cons. unfold all at 2. simpl. tauto.
Qed.

Lemma lstrip_space a t : all isspace a → lstrip (a ++ t) = lstrip t.
Proof.
  induction a as [|x a IH]; simpl; [done|].
  intros [-> Ha]%all_cons. by apply IH.
Qed.

Lemma lstrip_all a : all isspace a → lstrip a = [].
Proof. intros Ha. rewrite <- (app_nil_r a). by rewrite lstrip_space. Qed.

Lemma lstrip_head s c t : lstrip s = c :: t → isspace c = false.
Proof.
  induction s as [|x s IH]; simpl; [done|].
  destruct (isspace x) eqn:Hx; [done|]. by intros [= <- _].
Qed.

Lemma lstrip_keep c t : isspace c = false → lstrip (c :: t) = c :: t.
Proof. intros Hc. simpl. by rewrite Hc. Qed.

Lemma lstrip_app s b :
  lstrip (s ++ b) = match lstrip s with [] => lstrip b | _ => lstrip s ++ b end.
Proof.
  induction s as [|x s IH]; simpl.
  - by destruct (lstrip b).
  - destruct (isspace x); [done|]. done.
Qed.

Lemma all_lstrip c s : all c s → all c (lstrip s).
Proof.
  induction s as [|x s IH]; simpl; [done|].
  intros Hall. destruct (isspace x); [|done].
  apply all_cons in Hall as [_ Hall]. by apply IH.
Qed.

Lemma rstrip_space t b : all isspace b → rstrip (t ++ b) = rstrip t.
Proof.
  intros Hb. unfold rstrip. rewrite rev_app_distr.
  rewrite lstrip_space; [done|]. by apply all_rev.
Qed.

Lemma rstrip_keep c t : isspace c = false → rstrip (c :: t) = c :: rstrip t.
Proof.
  intros Hc. unfold rstrip. simpl. rewrite lstrip_app.
  destruct (lstrip (rev t)) as [|y u] eqn:Hu.
  - by rewrite lstrip_keep.
  - by rewrite rev_app_distr.
Qed.

Lemma all_strip c s : all c s → all c (strip s).
Proof.
  intros Hs. unfold strip, rstrip. apply all_rev, all_lstrip, all_rev.
  by apply all_lstrip.
Qed.

Lemma strip_head s c t : strip s = c :: t → isspace c = false.
Proof.
  unfold strip. destruct (lstrip s) as [|c0 t0] eqn:Hl; [done|].
  pose proof (lstrip_head _ _ _ Hl) as Hc0.
  rewrite rstrip_keep by done. by intros [= <- _].
Qed.

Lemma rstrip_rstrip u : rstrip (rstrip u) = rstrip u.
Proof.
  unfold rstrip. rewrite rev_involutive. f_equal.
  destruct (lstrip (rev u)) as [|c t] eqn:Hl; [done|].
  apply lstrip_keep. by eapply lstrip_head.
Qed.

Lemma strip_strip s : strip (strip s) = strip s.
Proof.
  unfold strip at 1. destruct (strip s) as [|c t] eqn:Hs; [done|].
  rewrite lstrip_keep by (by eapply strip_head).
  rewrite <- Hs. unfold strip. apply rstrip_rstrip.
Qed.

Lemma strip_surrounded a line b :
  all isspace a → all isspace b → strip (a ++ line ++ b) = strip line.
Proof.
  intros Ha Hb. unfold strip. rewrite lstrip_space by done.
  rewrite lstrip_app. destruct (lstrip line) as [|c t] eqn:Hl.
  - by rewrite lstrip_all.
  - by rewrite rstrip_space.
Qed.

Lemma split_nl_cons s : ∃ l ls, split_nl s = l :: ls.
Proof.
  destruct s as [|c s]; simpl; [by eexists _, _|].
  destruct (c =? 10); [by eexists _, _|].
  destruct (split_nl s); by eexists _, _.
Qed.

Lemma split_nl_app a b : split_nl (a ++ 0x0A :: b) = split_nl a ++ split_nl b.
Proof.
  induction a as [|c a IH]; simpl; [done|].
  destruct (c =? 10); [by rewrite IH|].
  rewrite IH. by destruct (split_nl_cons a) as (l & ls & ->).
Qed.

Lemma occurrences_cons c x t :
  occurrences c (x :: t)
  = if x =? c then S (occurrences c t) else occurrences c t.
Proof.
  unfold occurrences. cbn [List.filter]. rewrite (N.eqb_sym c x).
  by destruct (x =? c).
Qed.

Lemma split_nl_length s : length (split_nl s) = S (occurrences 0x0A s).
Proof.
  induction s as [|c s IH]; [done|].
  rewrite occurrences_cons. cbn [split_nl].
  destruct (c =? 10); cbn [length]; [by rewrite IH|].
  destruct (split_nl_cons s) as (l & ls & Hs). rewrite Hs in *. done.
Qed.

Lemma occurrences_app c t u :
  occurrences c (t ++ u) = (occurrences c t + occurrences c u)%nat.
Proof. unfold occurrences. by rewrite List.filter_app, length_app. Qed.

Section ExtractorMore.
Context `{RT : Runtime}.

Lemma extract_lines_from acc lines :
  extract_lines acc lines
  = match extract_lines [] lines with
    | Ok recs => Ok (acc ++ recs)
    | Raise e => Raise e
    end.
Proof.
  revert acc. induction lines as [|line lines IH]; intros acc; simpl.
  - by rewrite app_nil_r.
  - destruct (extract_line line) as [new|e]; [|done].
    rewrite (IH (acc ++ new)), (IH new).
    destruct (extract_lines [] lines); [|done]. by rewrite app_assoc.
Qed.

Lemma extract_lines_app acc lines lines' :
  extract_lines acc (lines ++ lines')
  = match extract_lines acc lines with
    | Ok recs => extract_lines recs lines'
    | Raise e => Raise e
    end.
Proof.
  revert acc. induction lines as [|line lines IH]; intros acc; simpl; [done|].
  destruct (extract_line line); [apply IH|done].
Qed.

(** X10: extraction goes line by line: the landmarks of two texts joined by
    a line feed are those of the first followed by those of the second, and
    an error of the first comes first. *)
Theorem extract_landmarks_of_joined_texts a b :
  extract_landmarks (a ++ [0x0A] ++ b)
  = match extract_landmarks a with
    | Ok la =>
        match extract_landmarks b with
        | Ok lb => Ok (la ++ lb)
        | Raise e => Raise e
        end
    | Raise e => Raise e
    end.
Proof.
  unfold extract_landmarks. cbn [app]. rewrite split_nl_app, extract_lines_app.
  destruct (extract_lines [] (split_nl a)) as [la|e]; [|done].
  apply extract_lines_from.
Qed.

(** X11: white space around a line, such as indentation or the carriage
    return of a CRLF line ending, does not change what the line gives. *)
Theorem extract_line_ignores_surrounding_space a line b :
  all isspace a → all isspace b →
  extract_line (a ++ line ++ b) = extract_line line.
Proof.
  intros Ha Hb. unfold extract_line. by rewrite strip_surrounded.
Qed.

Lemma extract_line_at_most_one line recs :
  extract_line line = Ok recs → (length recs ≤ 1)%nat.
Proof.
  unfold extract_line.
  destruct (re_match pattern (strip line)); [|intros [= <-]; simpl; lia].
  destruct (float_of_str _); [|done]. destruct (float_of_str _); [|done].
  intros [= <-]. simpl. lia.
Qed.

Lemma extract_lines_length lines : ∀ acc recs,
  extract_lines acc lines = Ok recs →
  (length recs ≤ length acc + length lines)%nat.
Proof.
  induction lines as [|line lines IH]; intros acc recs; simpl.
  - intros [= <-]. lia.
  - destruct (extract_line line) as [new|e] eqn:Hl; [|done].
    intros Hr%IH. apply extract_line_at_most_one in Hl.
    rewrite length_app in Hr. lia.
Qed.

(** X12: there are never more landmarks than lines: at most one more than
    the line feeds of the text. *)
Theorem at_most_one_landmark_per_line content landmarks :
  extract_landmarks content = Ok landmarks →
  (length landmarks ≤ S (occurrences 0x0A content))%nat.
Proof.
  intros Hr%extract_lines_length. by rewrite split_nl_length in Hr.
Qed.

Lemma extract_line_fields_trimmed line recs :
  extract_line line = Ok recs →
  Forall (λ lm, lm_name lm ≠ []
                ∧ all any_but_nl (lm_name lm)
                ∧ all any_but_nl (lm_location lm)
                ∧ strip (lm_name lm) = lm_name lm
                ∧ strip (lm_location lm) = lm_location lm) recs.
Proof.
  unfold extract_line.
  destruct (re_match pattern (strip line)) as [m|] eqn:Hm;
    [|intros [= <-]; constructor].
  destruct (float_of_str _); [|done]. destruct (float_of_str _); [|done].
  intros [= <-]. constructor; [|constructor]. cbn [lm_name lm_location].
  destruct (re_match_some _ _ Hm) as [Hsh _].
  destruct Hsh as (ws1 & ws2 & d & ws3 & ws4 & rest & Heq & Hname & Hname'
                   & _ & _ & _ & Hloc' & _).
  split; [|split; [by apply all_strip|split; [by apply all_strip|]]].
  - destruct (group (strip line) m 1) as [|c g1] eqn:Hg; [simpl in Hname; lia|].
    simpl in Heq. apply strip_head in Heq.
    unfold strip. rewrite lstrip_keep, rstrip_keep by done. done.
  - split; apply strip_strip.
Qed.

Lemma extract_lines_forall (P : landmark → Prop) lines : ∀ acc recs,
  (∀ line new, extract_line line = Ok new → Forall P new) →
  Forall P acc → extract_lines acc lines = Ok recs → Forall P recs.
Proof.
  induction lines as [|line lines IH]; intros acc recs HP Hacc; simpl.
  - by intros [= <-].
  - destruct (extract_line line) as [new|e] eqn:Hl; [|done].
    apply IH; [done|]. apply Forall_app. split; [done|]. by eapply HP.
Qed.

(** X13: every extracted name is non-empty; names and locations hold no
    line feed and are already trimmed. *)
Theorem extracted_fields_are_trimmed content landmarks :
  extract_landmarks content = Ok landmarks →
  Forall (λ lm, lm_name lm ≠ []
                ∧ all any_but_nl (lm_name lm)
                ∧ all any_but_nl (lm_location lm)
                ∧ strip (lm_name lm) = lm_name lm
                ∧ strip (lm_location lm) = lm_location lm) landmarks.
Proof.
  apply extract_lines_forall; [|constructor].
  apply extract_line_fields_trimmed.
Qed.

Lemma replace_comma_commas name : occurrences 0x2C (replace_comma name) = 0%nat.
Proof.
  induction name as [|c name IH]; [done|].
  cbn [replace_comma map]. rewrite occurrences_cons.
  destruct (c =? 44) eqn:Hc; [done|]. by rewrite Hc.
Qed.

Lemma replace_comma_newlines name :
  occurrences 0x0A (replace_comma name) = occurrences 0x0A name.
Proof.
  induction name as [|c name IH]; [done|].
  cbn [replace_comma map]. rewrite !occurrences_cons.
  destruct (c =? 44) eqn:Hc.
  - apply N.eqb_eq in Hc as ->. done.
  - fold (replace_comma name). by rewrite IH.
Qed.

(** X14: when the text of a float holds no comma and no line feed, the CSV
    line of a record whose name holds no line feed has exactly two commas
    and exactly one line feed, its last character. *)
Theorem csv_row_has_three_columns r :
  (∀ f, occurrences 0x2C (float_repr f) = 0%nat
        ∧ occurrences 0x0A (float_repr f) = 0%nat) →
  occurrences 0x0A (o_name r) = 0%nat →
  occurrences 0x2C (csv_row r) = 2%nat
  ∧ occurrences 0x0A (csv_row r) = 1%nat
  ∧ ∃ fields, csv_row r = fields ++ [0x0A].
Proof.
  intros Hrepr Hname. unfold csv_row.
  set (c := match o_new_coords r with Some new => new | None => o_existing_coords r end).
  destruct (Hrepr (lat c)) as [Hc1 Hn1]. destruct (Hrepr (lon c)) as [Hc2 Hn2].
  rewrite !occurrences_app, replace_comma_commas, replace_comma_newlines.
  rewrite Hc1, Hc2, Hn1, Hn2, Hname.
  split; [reflexivity|]. split; [reflexivity|].
  eexists. rewrite !app_assoc. reflexivity.
Qed.

End ExtractorMore.

(** ** Answers that are not lists of candidates *)

Section AnswersMore.
Context `{RT : Runtime}.

(** X15: [re.match] with the script's pattern succeeds on exactly the lines
    that have the shape [<name> (<location>) <dash> (<lat>, <lon>)]. *)
Theorem pattern_accepts_exactly_the_shape line :
  is_Some (re_match pattern line) ↔ has_shape line.
Proof.
  split.
  - intros [m Hm]. destruct (re_match_some _ _ Hm) as [Hsh _]. red. eauto.
  - intros Hsh. destruct (re_match pattern line) as [m|] eqn:Hm; [by eexists|].
    by apply re_match_none in Hm.
Qed.

(** X16: when the primary query is answered by a non-empty JSON object (an
    error report, say) instead of a list, the resolver returns nothing after
    that one request: no fallback query and no retry. *)
Theorem object_answer_ends_the_lookup name location retries w key value rest :
  (0 < retries)%nat →
  fetch_json (events w)
    (search_url (name ++ lit ", " ++ location ++ lit ", California, USA"))
  = Ok (PDict ((key, value) :: rest)) →
  geocode_landmark name location retries w
  = (Ok None,
     requested w
       [search_url (name ++ lit ", " ++ location ++ lit ", California, USA")]).
Proof.
  intros Hr Hf. rewrite geocode_first_attempt by done.
  apply retry_loop_unexpected with KeyError; [|done].
  by rewrite (attempt_primary name location w _ Hf eq_refl).
Qed.

(** X17: any answer to the primary query that Python takes as false ([null],
    [false], 0, an empty text, list or object) is treated like an empty
    list: the attempt goes on with the fallback query. *)
Theorem falsy_answer_goes_to_the_fallback name location w data :
  truthy data = false →
  fetch_json (events w)
    (search_url (name ++ lit ", " ++ location ++ lit ", California, USA"))
  = Ok data →
  ∃ r, attempt_body name location w
       = (r, requested w
               [search_url (name ++ lit ", " ++ location ++ lit ", California, USA");
                search_url (name ++ lit ", California, USA")]).
Proof.
  intros Hfalse Hf. unfold attempt_body, bind, fetch, lift, ret.
  cbn [events files].
  change (primary_query name location)
    with (name ++ lit ", " ++ location ++ lit ", California, USA").
  rewrite Hf. unfold has_candidates at 1. rewrite Hfalse.
  cbn [events files]. rewrite requested_two.
  destruct (fetch_json (events w ++ _) _) as [sd|e1]; [|eexists; reflexivity].
  destruct (has_candidates sd) as [[]|e2]; [|eexists; reflexivity..].
  destruct (first_candidate sd); eexists; reflexivity.
Qed.

End AnswersMore.

(** ** The further statements, on concrete runs *)


Lemma network_down_trace_witness :
  (∀ hist url, ∃ e, @fetch_json offline hist url = Raise e
                    ∧ network_error e = true)
  ∧ @geocode_landmark offline demo_name demo_location 5 empty_world
    = (Ok None,
       World (down_trace 5
                (@search_url offline
                   (demo_name ++ lit ", " ++ demo_location
                    ++ lit ", California, USA"))) ∅).
Proof.
  assert (∀ hist url, ∃ e, @fetch_json offline hist url = Raise e
                           ∧ network_error e = true) as Hdown
    by (intros; by exists URLError).
  split; [exact Hdown|].
  exact (@network_down_trace offline demo_name demo_location 5 empty_world Hdown).
Defined.

Lemma main_fails_before_acting_witness :
  @main offline empty_world = (Raise FileError, empty_world)
  ∧ files empty_world !! input_file = None.
Proof.
  assert (@main offline empty_world = (Raise FileError, empty_world)) as Hrun
    by reflexivity.
  split; [exact Hrun|].
  destruct (@main_fails_before_acting offline _ _ _ Hrun)
    as [_ [[Hnone _]|(content & Hsome & _)]]; [exact Hnone|].
  exfalso. vm_compute in Hsome. discriminate Hsome.
Defined.

Lemma main_changes_only_the_csv_file_witness :
  input_file ≠ csv_file
  ∧ files (@main one_result demo_world).2 !! input_file
    = files demo_world !! input_file.
Proof.
  assert (input_file ≠ csv_file) as Hne by discriminate.
  split; [exact Hne|].
  exact (@main_changes_only_the_csv_file one_result demo_world input_file Hne).
Defined.

Lemma main_overwrites_a_stale_csv_witness :
  ∃ w',
    @main one_result demo_world = (Ok tt, w')
    ∧ @main one_result
        (World (events demo_world)
           (<[csv_file := lit "stale"]> (files demo_world)))
      = (Ok tt, w').
Proof.
  destruct (@main one_result demo_world) as [r w'] eqn:Hrun.
  assert (r = Ok tt) as -> by (apply (f_equal fst) in Hrun; vm_compute in Hrun; congruence).
  exists w'. split; [reflexivity|].
  exact (@main_overwrites_a_stale_csv one_result demo_world w' (lit "stale") Hrun).
Defined.

Lemma csv_keeps_existing_coordinates_witness :
  (∀ hist url, @fetch_json no_results hist url = Ok (PList [])
               ∨ ∃ e, @fetch_json no_results hist url = Raise e)
  ∧ files demo_world !! input_file = Some lost_coast_line
  ∧ ∃ landmarks w',
      @extract_landmarks no_results lost_coast_line = Ok landmarks
      ∧ @main no_results demo_world = (Ok tt, w')
      ∧ is_Some (files w' !! csv_file).
Proof.
  assert (∀ hist url, @fetch_json no_results hist url = Ok (PList [])
                      ∨ ∃ e, @fetch_json no_results hist url = Raise e) as Hno
    by (intros; by left).
  assert (files demo_world !! input_file = Some lost_coast_line) as Hin
    by (vm_compute; reflexivity).
  split; [exact Hno|]. split; [exact Hin|].
  destruct (@extract_landmarks no_results lost_coast_line) as [landmarks|e] eqn:Hex;
    [|vm_compute in Hex; discriminate Hex].
  destruct (@csv_keeps_existing_coordinates no_results demo_world _ _ Hno Hin Hex)
    as (w' & Hmain & Hcsv).
  exists landmarks, w'. split; [reflexivity|]. split; [exact Hmain|].
  rewrite Hcsv. by eexists.
Defined.

Lemma summary_counts_witness :
  ∃ results w',
    @main_loop one_result [demo_landmark] [] empty_world = (Ok results, w')
    ∧ (successful results + failed results = 1)%Z.
Proof.
  destruct (@main_loop one_result [demo_landmark] [] empty_world)
    as [[results|e] w'] eqn:Hrun; [|vm_compute in Hrun; discriminate Hrun].
  exists results, w'. split; [reflexivity|].
  exact (proj1 (@summary_counts one_result _ _ _ _ Hrun)).
Defined.

Lemma at_most_one_landmark_per_line_witness :
  ∃ landmarks,
    @extract_landmarks offline lost_coast_line = Ok landmarks
    ∧ (length landmarks ≤ 1)%nat.
Proof.
  destruct (@extract_landmarks offline lost_coast_line) as [landmarks|e] eqn:Hex;
    [|vm_compute in Hex; discriminate Hex].
  exists landmarks. split; [reflexivity|].
  exact (@at_most_one_landmark_per_line offline _ _ Hex).
Defined.

Lemma extracted_fields_are_trimmed_witness :
  ∃ landmarks,
    @extract_landmarks offline lost_coast_line = Ok landmarks
    ∧ Forall (λ lm, lm_name lm ≠ []) landmarks.
Proof.
  destruct (@extract_landmarks offline lost_coast_line) as [landmarks|e] eqn:Hex;
    [|vm_compute in Hex; discriminate Hex].
  exists landmarks. split; [reflexivity|].
  eapply Forall_impl; [exact (@extracted_fields_are_trimmed offline _ _ Hex)|].
  intros lm H. exact (proj1 H).
Defined.

Lemma csv_row_has_three_columns_witness :
  (∀ f, occurrences 0x2C (@float_repr offline f) = 0%nat
        ∧ occurrences 0x0A (@float_repr offline f) = 0%nat)
  ∧ occurrences 0x0A (o_name (make_result demo_landmark None)) = 0%nat
  ∧ occurrences 0x2C (@csv_row offline (make_result demo_landmark None)) = 2%nat.
Proof.
  assert (∀ f, occurrences 0x2C (@float_repr offline f) = 0%nat
               ∧ occurrences 0x0A (@float_repr offline f) = 0%nat) as Hrepr
    by (intros; split; reflexivity).
  split; [exact Hrepr|]. split; [reflexivity|].
  exact (proj1 (@csv_row_has_three_columns offline
                  (make_result demo_landmark None) Hrepr eq_refl)).
Defined.

Lemma extract_line_ignores_surrounding_space_witness :
  all isspace (lit "  ") ∧ all isspace [0x0D]
  ∧ @extract_line offline (lit "  " ++ lost_coast_line ++ [0x0D])
    = @extract_line offline lost_coast_line.
Proof.
  split; [reflexivity|]. split; [reflexivity|].
  exact (@extract_line_ignores_surrounding_space offline (lit "  ")
           lost_coast_line [0x0D] eq_refl eq_refl).
Defined.

Lemma object_answer_ends_the_lookup_witness :
  (0 < default_retries)%nat
  ∧ @geocode_landmark rate_limited demo_name demo_location default_retries
      empty_world
    = (Ok None,
       requested empty_world
         [@search_url rate_limited
            (demo_name ++ lit ", " ++ demo_location ++ lit ", California, USA")]).
Proof.
  assert (0 < default_retries)%nat as Hr by (unfold default_retries; lia).
  split; [exact Hr|].
  exact (@object_answer_ends_the_lookup rate_limited demo_name demo_location
           default_retries empty_world _ _ _ Hr eq_refl).
Defined.

Lemma falsy_answer_goes_to_the_fallback_witness :
  truthy PNone = false
  ∧ ∃ r, @attempt_body null_answers demo_name demo_location empty_world
         = (r, requested empty_world
                 [@search_url null_answers
                    (demo_name ++ lit ", " ++ demo_location
                     ++ lit ", California, USA");
                  @search_url null_answers
                    (demo_name ++ lit ", California, USA")]).
Proof.
  split; [reflexivity|].
  exact (@falsy_answer_goes_to_the_fallback null_answers demo_name demo_location
           empty_world PNone eq_refl eq_refl).
Defined.
